(** * prchecklist: the boltdb-backed core repository (lib/repository/bolt.go)

    A shallow embedding of [boltCoreRepository] and of its five operations
    ([AddUser], [GetUsers], [GetChecks], [AddCheck], [RemoveCheck]) together
    with the constructor [NewBoltCore], followed by the properties of the
    record store that the specification states.

    The boltdb engine and encoding/json are libraries the repository calls;
    the engine is modelled by what its transactions do to a finite map of
    buckets, the codec is an interface ([JSON]) with one law ([JSONLaws]).
    Two codecs instantiate it: [GoJSON], which reads back all it writes,
    and [EncodingJSON], which coerces strings to valid UTF-8 as
    encoding/json does and so does not.
    What is not modelled: I/O failures of the engine (a commit that cannot
    reach the disk, a lock timeout) and scheduling; every operation runs as
    one transaction on the store it is given. *)

From Stdlib Require Import ZArith DecimalString DecimalZ DecimalPos DecimalFacts Ascii.
From stdpp Require Import gmap strings list fin_maps sorting.

Local Open Scope Z_scope.

(** ** Go values *)

(** [[]byte]: the conversions [[]byte(s)] and [string(b)] keep the content,
    so a byte slice is the string of its bytes. *)
Abbreviation bytes := string.

(** Go's [error] values, as far as this file creates, wraps or passes them
    on.  [Wrap cause msg] is what [errors.Wrap(cause, msg)] returns for a
    non-nil [cause]. *)
Inductive error : Type :=
  | NotFound (id : Z)            (* fmt.Errorf("not found: user id=%v", id) *)
  | ErrKeyRequired               (* bolt: Put with an empty key *)
  | ErrKeyTooLarge               (* bolt: Put with a key over MaxKeySize *)
  | ErrValueTooLarge             (* bolt: Put with a value over MaxValueSize *)
  | Other (msg : string)         (* an error of Validate, json or bolt.Open *)
  | Wrap (cause : error) (msg : string).

#[global] Instance error_eq_dec : EqDecision error.
Proof. solve_decision. Defined.

(** A nil [error] is [None]. *)
Definition errors_Wrap (err : option error) (message : string) : option error :=
  match err with
  | None => None
  | Some e => Some (Wrap e message)
  end.

(** strconv.FormatInt(i, 10): a minus sign for negative numbers, then the
    decimal digits; "0" for zero. *)
Definition strconv_FormatInt (i : Z) : string :=
  NilZero.string_of_int (Z.to_int i).

(** [err.Error()]. *)
Fixpoint Error (e : error) : string :=
  match e with
  | NotFound id => "not found: user id=" +:+ strconv_FormatInt id
  | ErrKeyRequired => "key required"
  | ErrKeyTooLarge => "key too large"
  | ErrValueTooLarge => "value too large"
  | Other msg => msg
  | Wrap cause msg => msg +:+ ": " +:+ Error cause
  end.

(** Whether the outermost layer of [e] is a wrap with message [op]. *)
Definition wrapped_by (op : string) (e : error) : bool :=
  match e with
  | Wrap _ msg => bool_decide (msg = op)
  | _ => false
  end.

(** A call either panics (a run-time error: a slice out of range, a nil
    pointer) or returns. *)
Inductive result (A : Type) : Type :=
  | Panic
  | Return (a : A).
Arguments Panic {A}.
Arguments Return {A} a.

#[global] Instance result_bind : MBind result := fun A B k m =>
  match m with
  | Panic => Panic
  | Return a => k a
  end.

(** ** Domain types of package prchecklist *)

(** Modelled from the spec: the struct [prchecklist.GitHubUser] is declared
    outside lib/repository.  "User — attributes: integer identifier (primary
    key), display login name, avatar reference."  bolt.go reads the field
    [ID] only. *)
Record GitHubUser : Type := mkGitHubUser {
  ID : Z;
  Login : string;
  AvatarURL : string
}.

#[global] Instance GitHubUser_eq_dec : EqDecision GitHubUser.
Proof. solve_decision. Defined.

(** A Go map value: [None] is the nil map, [Some m] a map with content [m]. *)
Abbreviation gomap K V := (option (gmap K V)).

(** Modelled from the spec: the type [prchecklist.Checks] is declared outside
    lib/repository.  "CheckSet — a mapping from an item key (string) to a
    set of user identifiers who have checked that item."  bolt.go compares
    it with nil and builds it with a composite literal, so it is a Go map. *)
Abbreviation Checks := (option (gmap string (gset Z))).

(** The checked-by set of item [key]; reading a nil map or an absent key
    gives the zero value. *)
Definition checked_by (c : Checks) (key : string) : gset Z :=
  match c with
  | None => ∅
  | Some m => default ∅ (m !! key)
  end.

(** Modelled from the spec: the method [Checks.Add] is defined outside
    lib/repository.  "Adding a user to an item that already contains them is
    a no-op (returns unchanged)"; otherwise the user joins the item's set
    and the call reports a change.  The receiver is a non-nil map. *)
Definition Checks_Add (c : gmap string (gset Z)) (key : string) (user : GitHubUser)
  : gmap string (gset Z) * bool :=
  let s := default ∅ (c !! key) in
  if decide (ID user ∈ s) then (c, false)
  else (<[key := s ∪ {[ID user]}]> c, true).

(** Modelled from the spec: the method [Checks.Remove] is defined outside
    lib/repository.  "Removing a user from an item that does not contain
    them is a no-op (returns unchanged)"; otherwise the user leaves the
    item's set and the call reports a change. *)
Definition Checks_Remove (c : gmap string (gset Z)) (key : string) (user : GitHubUser)
  : gmap string (gset Z) * bool :=
  let s := default ∅ (c !! key) in
  if decide (ID user ∈ s) then (<[key := s ∖ {[ID user]}]> c, true)
  else (c, false).

(** ** encoding/json *)

(** [json.Marshal(v)] and [json.Unmarshal(data, &v)] at the type of [v];
    [v] is the zero value before the call, and [json_Unmarshal] gives what
    [v] holds after it together with the error. *)
Class JSON (A : Type) : Type := {
  json_Marshal : A -> bytes + error;
  json_Unmarshal : bytes -> A * option error
}.

(** The codec contract of the specification: "must round-trip
    (decode(encode(x)) == x for all valid x)". *)
Class JSONLaws (A : Type) `{JSON A} : Prop := {
  unmarshal_marshal :
    forall (v : A) (data : bytes),
      json_Marshal v = inl data -> json_Unmarshal data = (v, None)
}.

(** ** The boltdb engine *)

(** A bucket maps byte keys to byte values; a database file is a set of
    named buckets.  A transaction works on its own copy of the database. *)
Abbreviation Bucket := (gmap string string).
Abbreviation DB := (gmap string (gmap string string)).

Definition MaxKeySize : Z := 32768.
Definition MaxValueSize : Z := 2 ^ 31 - 2.

(** [*bolt.Bucket]: nil, or the bucket of that name in the transaction. *)
Abbreviation handle := (option string).

(** tx.Bucket(name): nil if the bucket does not exist. *)
Definition Tx_Bucket (tx : DB) (name : string) : handle :=
  match tx !! name with
  | Some _ => Some name
  | None => None
  end.

(** tx.CreateBucketIfNotExists(name), for a non-empty name. *)
Definition Tx_CreateBucketIfNotExists (tx : DB) (name : string) : DB * option error :=
  match tx !! name with
  | Some _ => (tx, None)
  | None => (<[name := ∅]> tx, None)
  end.

(** b.Get(key): nil if the key is absent; a nil bucket pointer panics. *)
Definition Bucket_Get (tx : DB) (b : handle) (key : bytes) : result (option bytes) :=
  match b with
  | None => Panic
  | Some name =>
      match tx !! name with
      | None => Panic
      | Some bucket => Return (bucket !! key)
      end
  end.

(** b.Put(key, value) in a writable transaction: refuses an empty key and
    oversized keys and values, otherwise binds [key] to [value]. *)
Definition Bucket_Put (tx : DB) (b : handle) (key value : bytes) : result (DB * option error) :=
  match b with
  | None => Panic
  | Some name =>
      match tx !! name with
      | None => Panic
      | Some bucket =>
          if bool_decide (String.length key = 0%nat) then Return (tx, Some ErrKeyRequired)
          else if bool_decide (MaxKeySize < Z.of_nat (String.length key)) then Return (tx, Some ErrKeyTooLarge)
          else if bool_decide (MaxValueSize < Z.of_nat (String.length value)) then Return (tx, Some ErrValueTooLarge)
          else Return (<[name := <[key := value]> bucket]> tx, None)
      end
  end.

(** db.Update(fn): [fn] runs on the transaction; a nil error commits what
    it wrote, a non-nil error rolls the transaction back and is returned. *)
Definition db_Update (db : DB) (fn : DB -> result (DB * option error)) : result (DB * option error) :=
  '(tx, err) ← fn db;
  match err with
  | None => Return (tx, None)
  | Some e => Return (db, Some e)
  end.

(** db.View(fn): [fn] reads the database; [A] carries the variables the
    closure assigns next to the error it returns. *)
Definition db_View {A} (db : DB) (fn : DB -> result A) : result A := fn db.

Definition boltBucketNameUsers : string := "users".
Definition boltBucketNameChecks : string := "checks".

(** The Go slice expression [s[n:]]: a run-time panic when [n > len(s)]. *)
Fixpoint slice_from (s : string) (n : nat) : result string :=
  match n, s with
  | O, _ => Return s
  | S _, EmptyString => Panic
  | S n', String _ s' => slice_from s' n'
  end.

(** ** The repository *)

(** [prchecklist.ChecklistRef] is declared outside lib/repository; bolt.go
    uses its methods [Validate] (nil when the reference is well formed) and
    [String] (the canonical string, the storage key) and nothing else. *)
Class ChecklistRefMethods (ChecklistRef : Type) : Type := {
  ChecklistRef_Validate : ChecklistRef -> option error;
  ChecklistRef_String : ChecklistRef -> string
}.

Section Repository.

Context `{ChecklistRefMethods ChecklistRef}.
Context `{JSON_User : JSON GitHubUser} `{JSON_Checks : JSON (option (gmap string (gset Z)))}.

(** bolt.Open(path, 0600, options): the buckets found in the file at
    [path] (none for a new file), or an error. *)
Context (bolt_Open : string -> DB + error).

(** type boltCoreRepository struct { db *bolt.DB }: the repository is the
    database it holds; an operation returns the database it leaves. *)

(** func NewBoltCore(datasource string) (coreRepository, error) *)
Definition NewBoltCore (datasource : string) : result (DB + error) :=
  path ← slice_from datasource (String.length "bolt:");
  match bolt_Open path with
  | inr err => Return (inr err)
  | inl db =>
      '(db, err) ← db_Update db (fun tx =>
        let '(tx, err) := Tx_CreateBucketIfNotExists tx boltBucketNameUsers in
        match err with
        | Some e => Return (tx, Some e)
        | None =>
            let '(tx, err) := Tx_CreateBucketIfNotExists tx boltBucketNameChecks in
            match err with
            | Some e => Return (tx, Some e)
            | None => Return (tx, None)
            end
        end);
      match err with
      | Some e => Return (inr e)
      | None => Return (inl db)
      end
  end.

(** func (r boltCoreRepository) AddUser(ctx, user) error *)
Definition AddUser (db : DB) (user : GitHubUser) : result (DB * option error) :=
  db_Update db (fun tx =>
    let usersBucket := Tx_Bucket tx boltBucketNameUsers in
    match json_Marshal user with
    | inr err => Return (tx, Some err)
    | inl buf => Bucket_Put tx usersBucket (strconv_FormatInt (ID user)) buf
    end).

(** The loop of GetUsers over [userIDs]; [users] is the map the closure
    fills, and it keeps what was stored in it when the loop returns an
    error. *)
Fixpoint GetUsers_range (tx : DB) (usersBucket : handle) (userIDs : list Z)
    (users : gmap Z GitHubUser) : result (gmap Z GitHubUser * option error) :=
  match userIDs with
  | [] => Return (users, None)
  | id :: rest =>
      buf ← Bucket_Get tx usersBucket (strconv_FormatInt id);
      match buf with
      | None => Return (users, Some (NotFound id))
      | Some buf =>
          match json_Unmarshal buf with
          | (_, Some err) => Return (users, Some err)
          | (user, None) => GetUsers_range tx usersBucket rest (<[id := user]> users)
          end
      end
  end.

(** func (r boltCoreRepository) GetUsers(ctx, userIDs) (map[int]GitHubUser, error) *)
Definition GetUsers (db : DB) (userIDs : list Z) : result (gomap Z GitHubUser * option error) :=
  let users : gmap Z GitHubUser := ∅ in
  '(users, err) ← db_View db (fun tx =>
    let usersBucket := Tx_Bucket tx boltBucketNameUsers in
    GetUsers_range tx usersBucket userIDs users);
  Return (Some users, errors_Wrap err "GetUsers").

(** func (r boltCoreRepository) GetChecks(ctx, clRef) (prchecklist.Checks, error) *)
Definition GetChecks (db : DB) (clRef : ChecklistRef) : result (Checks * option error) :=
  match ChecklistRef_Validate clRef with
  | Some err => Return (None, Some err)
  | None =>
      let checks : Checks := None in
      '(checks, err) ← db_View db (fun tx =>
        let checksBucket := Tx_Bucket tx boltBucketNameChecks in
        let key := ChecklistRef_String clRef in
        data ← Bucket_Get tx checksBucket key;
        match data with
        | Some data =>
            match json_Unmarshal data with
            | (checks, Some err) => Return (checks, Some err)
            | (checks, None) => Return (checks, None)
            end
        | None => Return (checks, None)
        end);
      Return (checks, errors_Wrap err "GetChecks")
  end.

(** func (r boltCoreRepository) AddCheck(ctx, clRef, key, user) error *)
Definition AddCheck (db : DB) (clRef : ChecklistRef) (key : string) (user : GitHubUser)
  : result (DB * option error) :=
  match ChecklistRef_Validate clRef with
  | Some err => Return (db, Some err)
  | None =>
      db_Update db (fun tx =>
        let checks : Checks := None in
        let checksBucket := Tx_Bucket tx boltBucketNameChecks in
        let dbKey := ChecklistRef_String clRef in
        data ← Bucket_Get tx checksBucket dbKey;
        let '(checks, err) :=
          match data with
          | Some data => json_Unmarshal data
          | None => (checks, None)
          end in
        match err with
        | Some e => Return (tx, Some e)
        | None =>
            let checks := match checks with None => ∅ | Some m => m end in
            let '(checks, changed) := Checks_Add checks key user in
            if negb changed then Return (tx, None)
            else
              match json_Marshal (Some checks) with
              | inr err => Return (tx, Some err)
              | inl data => Bucket_Put tx checksBucket dbKey data
              end
        end)
  end.

(** func (r boltCoreRepository) RemoveCheck(ctx, clRef, key, user) error *)
Definition RemoveCheck (db : DB) (clRef : ChecklistRef) (key : string) (user : GitHubUser)
  : result (DB * option error) :=
  match ChecklistRef_Validate clRef with
  | Some err => Return (db, Some err)
  | None =>
      db_Update db (fun tx =>
        let checks : Checks := None in
        let checksBucket := Tx_Bucket tx boltBucketNameChecks in
        let dbKey := ChecklistRef_String clRef in
        data ← Bucket_Get tx checksBucket dbKey;
        let '(checks, err) :=
          match data with
          | Some data => json_Unmarshal data
          | None => (checks, None)
          end in
        match err with
        | Some e => Return (tx, Some e)
        | None =>
            let checks := match checks with None => ∅ | Some m => m end in
            let '(checks, changed) := Checks_Remove checks key user in
            if negb changed then Return (tx, None)
            else
              match json_Marshal (Some checks) with
              | inr err => Return (tx, Some err)
              | inl data => Bucket_Put tx checksBucket dbKey data
              end
        end)
  end.

(** *** What a store holds, as the operations read it *)

(** Both buckets exist, as in every database [NewBoltCore] returns. *)
Definition has_buckets (db : DB) : Prop :=
  is_Some (db !! boltBucketNameUsers) /\ is_Some (db !! boltBucketNameChecks).

(** The errors a Put returns. *)
Definition Put_error (e : error) : Prop :=
  e = ErrKeyRequired \/ e = ErrKeyTooLarge \/ e = ErrValueTooLarge.

(** Put accepts the pair: the key is not empty and neither the key nor
    the value is over the engine's size limit. *)
Definition Put_accepts (key value : bytes) : Prop :=
  String.length key <> 0%nat /\
  Z.of_nat (String.length key) <= MaxKeySize /\
  Z.of_nat (String.length value) <= MaxValueSize.

(** The codec encodes the check set [m] as [data] and decodes [data] back
    to [m]. *)
Definition reads_back (m : gmap string (gset Z)) (data : bytes) : Prop :=
  json_Marshal (Some m) = inl data /\ json_Unmarshal data = (Some m, None).

(** The database with the two buckets created where they are missing. *)
Definition bootstrap (db : DB) : DB :=
  (Tx_CreateBucketIfNotExists
     (Tx_CreateBucketIfNotExists db boltBucketNameUsers).1 boltBucketNameChecks).1.

(** The user stored for [id] in the users bucket [b], if the entry
    exists and decodes. *)
Definition stored_user (b : Bucket) (id : Z) : option GitHubUser :=
  buf ← b !! strconv_FormatInt id;
  match json_Unmarshal buf with
  | (user, None) => Some user
  | (_, Some _) => None
  end.

(** The check set stored for [clRef]: empty when the key is absent or
    holds a nil map, undefined when there is no checks bucket or the
    bytes do not decode. *)
Definition stored_checks (db : DB) (clRef : ChecklistRef) : option (gmap string (gset Z)) :=
  b ← db !! boltBucketNameChecks;
  match b !! ChecklistRef_String clRef with
  | None => Some ∅
  | Some data =>
      match json_Unmarshal data with
      | (checks, None) => Some (default ∅ checks)
      | (_, Some _) => None
      end
  end.

End Repository.

(** ** A codec in the format of encoding/json

    An executable codec for the two stored types, writing what
    encoding/json writes for them: a [Checks] value as an object of integer
    arrays, [null] for the nil map; a user as an object of its three fields.
    The order of the keys of an object is the order of [map_to_list] (no
    reader depends on it), and of the escapes of a string literal only the
    two for the quote and the backslash are written and read. *)
Module GoJSON.

Definition dquote : ascii := ascii_of_nat 34.
Definition backslash : ascii := ascii_of_nat 92.

Fixpoint escape (s : string) : string :=
  match s with
  | EmptyString => EmptyString
  | String c s' =>
      if Ascii.eqb c dquote || Ascii.eqb c backslash
      then String backslash (String c (escape s'))
      else String c (escape s')
  end.

(** A string literal. *)
Definition quote (s : string) : string :=
  String dquote (escape s +:+ String dquote EmptyString).

(** Reads a string literal after its opening quote: the string and the
    text after the closing quote. *)
Fixpoint unquote (s : string) : option (string * string) :=
  match s with
  | EmptyString => None
  | String c s' =>
      if Ascii.eqb c dquote then Some (EmptyString, s')
      else if Ascii.eqb c backslash then
        match s' with
        | EmptyString => None
        | String d s'' =>
            match unquote s'' with
            | Some (k, r) => Some (String d k, r)
            | None => None
            end
        end
      else
        match unquote s' with
        | Some (k, r) => Some (String c k, r)
        | None => None
        end
  end.

Definition number (z : Z) : string := strconv_FormatInt z.

Definition read_number (s : string) : option Z :=
  Z.of_int <$> NilZero.int_of_string s.

Fixpoint numbers (l : list Z) : string :=
  match l with
  | [] => EmptyString
  | [z] => number z
  | z :: l' => number z +:+ String "," (numbers l')
  end.

Definition array (l : list Z) : string :=
  String "[" (numbers l +:+ String "]" EmptyString).

(** Reads an array after its opening bracket; [cur] holds the characters
    of the number being read, [first] says that no comma was passed. *)
Fixpoint read_numbers (s cur : string) (first : bool) : option (list Z * string) :=
  match s with
  | EmptyString => None
  | String c s' =>
      if Ascii.eqb c "]" then
        match cur with
        | EmptyString => if first then Some ([], s') else None
        | _ => z ← read_number cur; Some ([z], s')
        end
      else if Ascii.eqb c "," then
        z ← read_number cur;
        '(l, r) ← read_numbers s' EmptyString false;
        Some (z :: l, r)
      else read_numbers s' (cur +:+ String c EmptyString) first
  end.

Definition member (e : string * list Z) : string :=
  quote e.1 +:+ String ":" (array e.2).

Fixpoint members (es : list (string * list Z)) : string :=
  match es with
  | [] => EmptyString
  | [e] => member e
  | e :: es' => member e +:+ String "," (members es')
  end.

(** Reads the members of an object up to its closing brace. *)
Fixpoint read_members (fuel : nat) (s : string) : option (list (string * list Z) * string) :=
  match fuel, s with
  | S fuel, String c s1 =>
      if Ascii.eqb c dquote then
        '(k, s2) ← unquote s1;
        match s2 with
        | String ":" (String "[" s3) =>
            '(v, s4) ← read_numbers s3 EmptyString true;
            match s4 with
            | String "}" r => Some ([(k, v)], r)
            | String "," s5 =>
                '(es, r) ← read_members fuel s5;
                Some ((k, v) :: es, r)
            | _ => None
            end
        | _ => None
        end
      else None
  | _, _ => None
  end.

Definition Checks_entries (m : gmap string (gset Z)) : list (string * list Z) :=
  (fun e : string * gset Z => (e.1, elements e.2)) <$> map_to_list m.

(** A later member overrides an earlier one of the same key. *)
Definition Checks_of_entries (es : list (string * list Z)) : gmap string (gset Z) :=
  list_to_map ((fun e : string * list Z => (e.1, list_to_set e.2)) <$> reverse es).

Definition Marshal_Checks (c : Checks) : bytes + error :=
  match c with
  | None => inl "null"
  | Some m => inl (String "{" (members (Checks_entries m) +:+ String "}" EmptyString))
  end.

Definition SyntaxError : error := Other "json: syntax error".

Definition Unmarshal_Checks (data : bytes) : Checks * option error :=
  if String.eqb data "null" then (None, None)
  else
    match data with
    | String "{" (String "}" EmptyString) => (Some ∅, None)
    | String "{" s =>
        match read_members (String.length s) s with
        | Some (es, EmptyString) => (Some (Checks_of_entries es), None)
        | _ => (None, Some SyntaxError)
        end
    | _ => (None, Some SyntaxError)
    end.

Definition Marshal_User (u : GitHubUser) : bytes + error :=
  inl (String "{" (quote "ID" +:+ String ":" (number (ID u)) +:+
       String "," (quote "Login" +:+ String ":" (quote (Login u))) +:+
       String "," (quote "AvatarURL" +:+ String ":" (quote (AvatarURL u))) +:+
       String "}" EmptyString)).

(** Drops the prefix [p] of [s], if it is one. *)
Fixpoint expect (p s : string) : option string :=
  match p, s with
  | EmptyString, _ => Some s
  | String a p', String b s' => if Ascii.eqb a b then expect p' s' else None
  | String _ _, EmptyString => None
  end.

(** Reads a number up to the next comma. *)
Fixpoint read_field_number (s cur : string) : option (Z * string) :=
  match s with
  | EmptyString => None
  | String c s' =>
      if Ascii.eqb c "," then z ← read_number cur; Some (z, s')
      else read_field_number s' (cur +:+ String c EmptyString)
  end.

Definition zero_User : GitHubUser := mkGitHubUser 0 EmptyString EmptyString.

Definition read_User (data : bytes) : option GitHubUser :=
  s ← expect (String "{" (quote "ID" +:+ String ":" EmptyString)) data;
  '(id, s) ← read_field_number s EmptyString;
  s ← expect (quote "Login" +:+ String ":" (String dquote EmptyString)) s;
  '(login, s) ← unquote s;
  s ← expect (String "," (quote "AvatarURL" +:+ String ":" (String dquote EmptyString))) s;
  '(avatar, s) ← unquote s;
  if String.eqb s "}" then Some (mkGitHubUser id login avatar) else None.

Definition Unmarshal_User (data : bytes) : GitHubUser * option error :=
  match read_User data with
  | Some u => (u, None)
  | None => (zero_User, Some SyntaxError)
  end.

#[export] Instance JSON_User : JSON GitHubUser :=
  {| json_Marshal := Marshal_User; json_Unmarshal := Unmarshal_User |}.

#[export] Instance JSON_Checks : JSON (option (gmap string (gset Z))) :=
  {| json_Marshal := Marshal_Checks; json_Unmarshal := Unmarshal_Checks |}.

End GoJSON.

(** ** A concrete repository

    A reference with the four fields the specification names, the codec
    [GoJSON] and a few stores, to run the operations on. *)
Module Sample.
Import GoJSON.

(** Modelled from the spec: the struct [prchecklist.ChecklistRef] is
    declared outside lib/repository.  "A structured identifier (e.g.
    owner, repository, pull-request number, and revision/stage marker)
    that must pass a validation predicate (non-empty required fields,
    well-formed numeric fields) before use, and that serializes
    deterministically to a canonical string", "e.g. owner/repo#number@stage". *)
Record ChecklistRef : Type := mkChecklistRef {
  Owner : string;
  Repo : string;
  Number : Z;
  Stage : string
}.

Definition Validate (clRef : ChecklistRef) : option error :=
  if bool_decide (Owner clRef = EmptyString) then Some (Other "owner is required")
  else if bool_decide (Repo clRef = EmptyString) then Some (Other "repo is required")
  else if bool_decide (Number clRef <= 0) then Some (Other "number must be positive")
  else if bool_decide (Stage clRef = EmptyString) then Some (Other "stage is required")
  else None.

Definition String_ (clRef : ChecklistRef) : string :=
  Owner clRef +:+ "/" +:+ Repo clRef +:+ "#" +:+ strconv_FormatInt (Number clRef)
    +:+ "@" +:+ Stage clRef.

#[export] Instance ChecklistRef_methods : ChecklistRefMethods ChecklistRef :=
  {| ChecklistRef_Validate := Validate; ChecklistRef_String := String_ |}.

Definition alice : GitHubUser := mkGitHubUser 1 "alice" "https://example.org/a.png".
Definition bob : GitHubUser := mkGitHubUser 2 "bob" "https://example.org/b.png".
Definition carol : GitHubUser := mkGitHubUser 3 "carol" "https://example.org/c.png".

Definition pr1 : ChecklistRef := mkChecklistRef "motemen" "prchecklist" 1 "qa".
Definition no_stage : ChecklistRef := mkChecklistRef "motemen" "prchecklist" 1 EmptyString.

(** bolt.Open on a file system with no database file: every path opens
    a new, empty database. *)
Definition open_new (path : string) : DB + error := inl ∅.

(** The database an operation leaves, whatever it returned. *)
Definition left_by (r : result (DB * option error)) (db : DB) : DB :=
  match r with
  | Return (db', _) => db'
  | Panic => db
  end.

(** A new repository. *)
Definition db_new : DB :=
  match NewBoltCore open_new "bolt:/tmp/prchecklist.db" with
  | Return (inl db) => db
  | _ => ∅
  end.

(** Users 1 and 3 were added, user 2 never was. *)
Definition db_users : DB :=
  left_by (AddUser (left_by (AddUser db_new alice) db_new) carol) db_new.

Definition users_bucket : Bucket := default ∅ (db_users !! boltBucketNameUsers).

(** alice has checked "item" of [pr1]. *)
Definition db_checked : DB := left_by (AddCheck db_new pr1 "item" alice) db_new.

(** A user whose identifier is zero, and one whose identifier is negative. *)
Definition ghost : GitHubUser := mkGitHubUser 0 "ghost" EmptyString.
Definition minus7 : GitHubUser := mkGitHubUser (-7) "minus" EmptyString.

(** The entry of [pr1] holds bytes that are not a JSON value. *)
Definition db_corrupt : DB :=
  <[boltBucketNameChecks := {[String_ pr1 := "{"]}]> db_new.

(** bob was added to [db_users]. *)
Definition db_users_bob : DB := left_by (AddUser db_users bob) db_users.

(** alice was added to a new repository. *)
Definition db_alice : DB := left_by (AddUser db_new alice) db_new.

(** The users of [db_users], and under the key of user 2 bytes that are
    not a JSON value. *)
Definition broken_bucket : Bucket := <["2" := "{"]> users_bucket.
Definition db_broken_user : DB := <[boltBucketNameUsers := broken_bucket]> db_new.

(** alice has taken her check of "item" back. *)
Definition db_unchecked : DB :=
  left_by (RemoveCheck db_checked pr1 "item" alice) db_checked.

(** The bytes stored for [pr1] in [db_checked] and in [db_unchecked]. *)
Definition entry_of (db : DB) : bytes :=
  default EmptyString (db !! boltBucketNameChecks ≫= fun b => b !! String_ pr1).
Definition data_checked : bytes := entry_of db_checked.
Definition data_unchecked : bytes := entry_of db_unchecked.

(** bolt.Open on a file system where every path holds the file of
    [db_users]. *)
Definition open_users (path : string) : DB + error := inl db_users.

End Sample.

(** ** The coercion of strings by encoding/json

    encoding/json writes a string as valid UTF-8: a byte that starts no
    UTF-8 sequence is written as the escape of U+FFFD, the replacement
    character, and read back as its three bytes.  This codec is [GoJSON]
    with that coercion in its string literals and with the members of an
    object sorted by key, as encoding/json writes a map.  The other
    escapes of encoding/json (control characters, the HTML characters,
    U+2028 and U+2029) are left out, and the decoder reads the escapes this
    encoder writes. *)
Module EncodingJSON.
Import GoJSON Sample.

Definition byte_in (lo hi : N) (c : ascii) : bool :=
  (lo <=? N_of_ascii c)%N && (N_of_ascii c <=? hi)%N.

(** A continuation byte, 0x80 to 0xBF. *)
Definition continuation (c : ascii) : bool := byte_in 128 191 c.

(** The second byte of a three-byte sequence that starts with [c0]:
    0xE0 takes 0xA0 to 0xBF, 0xED takes 0x80 to 0x9F. *)
Definition second_of_three (c0 c1 : ascii) : bool :=
  if byte_in 224 224 c0 then byte_in 160 191 c1
  else if byte_in 237 237 c0 then byte_in 128 159 c1
  else continuation c1.

(** The second byte of a four-byte sequence that starts with [c0]:
    0xF0 takes 0x90 to 0xBF, 0xF4 takes 0x80 to 0x8F. *)
Definition second_of_four (c0 c1 : ascii) : bool :=
  if byte_in 240 240 c0 then byte_in 144 191 c1
  else if byte_in 244 244 c0 then byte_in 128 143 c1
  else continuation c1.

(** utf8.DecodeRuneInString: the number of bytes of the UTF-8 sequence at
    the head of [s], and 0 when the first byte starts none (RuneError of
    width 1). *)
Definition rune_size (s : string) : nat :=
  match s with
  | EmptyString => 0
  | String c0 s1 =>
      if (N_of_ascii c0 <? 128)%N then 1
      else
        match s1 with
        | EmptyString => 0
        | String c1 s2 =>
            if byte_in 194 223 c0 then (if continuation c1 then 2 else 0)
            else
              match s2 with
              | EmptyString => 0
              | String c2 s3 =>
                  if byte_in 224 239 c0 then
                    (if second_of_three c0 c1 && continuation c2 then 3 else 0)
                  else
                    match s3 with
                    | EmptyString => 0
                    | String c3 _ =>
                        if byte_in 240 244 c0 && second_of_four c0 c1
                           && continuation c2 && continuation c3
                        then 4 else 0
                    end
              end
        end
  end%nat.

(** The escape of U+FFFD, and its UTF-8 encoding. *)
Definition replacement_escape : string := String backslash "ufffd".
Definition replacement_bytes : string :=
  String (ascii_of_nat 239) (String (ascii_of_nat 191) (String (ascii_of_nat 189) EmptyString)).

(** The content of a string literal; [skip] counts the bytes left of the
    UTF-8 sequence being copied. *)
Fixpoint escape_from (s : string) (skip : nat) : string :=
  match s with
  | EmptyString => EmptyString
  | String c s' =>
      match skip with
      | S k => String c (escape_from s' k)
      | O =>
          if Ascii.eqb c dquote || Ascii.eqb c backslash
          then String backslash (String c (escape_from s' 0))
          else
            match rune_size s with
            | O => replacement_escape +:+ escape_from s' 0
            | S k => String c (escape_from s' k)
            end
      end
  end.

Definition quote (s : string) : string :=
  String dquote (escape_from s 0 +:+ String dquote EmptyString).

(** Reads a string literal after its opening quote. *)
Fixpoint unquote (s : string) : option (string * string) :=
  match s with
  | EmptyString => None
  | String c s' =>
      if Ascii.eqb c dquote then Some (EmptyString, s')
      else if Ascii.eqb c backslash then
        match s' with
        | String "u" (String "f" (String "f" (String "f" (String "d" s'')))) =>
            match unquote s'' with
            | Some (k, r) => Some (replacement_bytes +:+ k, r)
            | None => None
            end
        | String d s'' =>
            if Ascii.eqb d dquote || Ascii.eqb d backslash then
              match unquote s'' with
              | Some (k, r) => Some (String d k, r)
              | None => None
              end
            else None
        | EmptyString => None
        end
      else
        match unquote s' with
        | Some (k, r) => Some (String c k, r)
        | None => None
        end
  end.

Definition member (e : string * list Z) : string :=
  quote e.1 +:+ String ":" (array e.2).

Fixpoint members (es : list (string * list Z)) : string :=
  match es with
  | [] => EmptyString
  | [e] => member e
  | e :: es' => member e +:+ String "," (members es')
  end.

Fixpoint read_members (fuel : nat) (s : string) : option (list (string * list Z) * string) :=
  match fuel, s with
  | S fuel, String c s1 =>
      if Ascii.eqb c dquote then
        '(k, s2) ← unquote s1;
        match s2 with
        | String ":" (String "[" s3) =>
            '(v, s4) ← read_numbers s3 EmptyString true;
            match s4 with
            | String "}" r => Some ([(k, v)], r)
            | String "," s5 =>
                '(es, r) ← read_members fuel s5;
                Some ((k, v) :: es, r)
            | _ => None
            end
        | _ => None
        end
      else None
  | _, _ => None
  end.

(** The keys of a map are written in the order of their bytes. *)
Definition key_le (e1 e2 : string * list Z) : Prop := String.le e1.1 e2.1.

#[local] Instance key_le_dec : RelDecision key_le.
Proof. intros e1 e2. unfold key_le. apply _. Defined.

Definition Marshal_Checks (c : Checks) : bytes + error :=
  match c with
  | None => inl "null"
  | Some m =>
      inl (String "{" (members (merge_sort key_le (Checks_entries m))
                       +:+ String "}" EmptyString))
  end.

Definition Unmarshal_Checks (data : bytes) : Checks * option error :=
  if String.eqb data "null" then (None, None)
  else
    match data with
    | String "{" (String "}" EmptyString) => (Some ∅, None)
    | String "{" s =>
        match read_members (String.length s) s with
        | Some (es, EmptyString) => (Some (Checks_of_entries es), None)
        | _ => (None, Some SyntaxError)
        end
    | _ => (None, Some SyntaxError)
    end.

Definition JSON_Checks : JSON (option (gmap string (gset Z))) :=
  {| json_Marshal := Marshal_Checks; json_Unmarshal := Unmarshal_Checks |}.

(** An item key that is one byte, 0xFF: not valid UTF-8. *)
Definition key_ff : string := String (ascii_of_nat 255) EmptyString.

(** [Sample.alice] has checked [key_ff] of [Sample.pr1] in a new
    repository, once and twice. *)
Definition db_once : DB :=
  left_by (AddCheck (JSON_Checks := JSON_Checks) db_new pr1 key_ff alice) db_new.


End EncodingJSON.

(** * Properties *)

Section Properties.

Context `{ChecklistRefMethods ChecklistRef}.
Context `{JSON_User : JSON GitHubUser} `{JSON_Checks : JSON (option (gmap string (gset Z)))}.

Implicit Types (db tx : DB) (b : Bucket) (clRef R : ChecklistRef) (K : string)
  (U user : GitHubUser) (err e : error).

#[local] Arguments Bucket_Put : simpl never.
#[local] Arguments Bucket_Get : simpl never.

(** *** The engine *)

Lemma Tx_Bucket_Some db name b :
  db !! name = Some b -> Tx_Bucket db name = Some name.
Proof. intros Hb. unfold Tx_Bucket. by rewrite Hb. Qed.

Lemma Bucket_Get_Some db name b key :
  db !! name = Some b -> Bucket_Get db (Some name) key = Return (b !! key).
Proof. intros Hb. unfold Bucket_Get. by rewrite Hb. Qed.

(** A transaction whose function fails leaves the database as it was. *)
Lemma db_Update_rollback db fn tx e :
  fn db = Return (tx, Some e) -> db_Update db fn = Return (db, Some e).
Proof. intros Hfn. unfold db_Update. by rewrite Hfn. Qed.

Lemma db_Update_commit db fn tx :
  fn db = Return (tx, None) -> db_Update db fn = Return (tx, None).
Proof. intros Hfn. unfold db_Update. by rewrite Hfn. Qed.

Lemma db_Update_failed db fn db' e :
  db_Update db fn = Return (db', Some e) -> db' = db.
Proof.
  unfold db_Update. destruct (fn db) as [|[tx [e'|]]]; simpl; congruence.
Qed.

(** The outcomes of a Put on an existing bucket. *)
Lemma Bucket_Put_cases db name b key value :
  db !! name = Some b ->
  (Bucket_Put db (Some name) key value = Return (<[name := <[key := value]> b]> db, None) /\
   String.length key <> 0%nat /\
   Z.of_nat (String.length key) <= MaxKeySize /\
   Z.of_nat (String.length value) <= MaxValueSize) \/
  (exists e, Bucket_Put db (Some name) key value = Return (db, Some e) /\ Put_error e).
Proof.
  intros Hb. unfold Bucket_Put, Put_error. rewrite Hb.
  repeat case_bool_decide; eauto 8 with lia.
Qed.

(** *** AddCheck and RemoveCheck, case by case *)

Lemma AddCheck_success db R K U db1 :
  AddCheck db R K U = Return (db1, None) ->
  exists b m,
    ChecklistRef_Validate R = None /\
    db !! boltBucketNameChecks = Some b /\
    stored_checks db R = Some m /\
    (((ID U ∈ default ∅ (m !! K)) /\ db1 = db) \/
     ((ID U ∉ default ∅ (m !! K)) /\
      exists data,
        json_Marshal (Some (<[K := default ∅ (m !! K) ∪ {[ID U]}]> m)) = inl data /\
        db1 = <[boltBucketNameChecks := <[ChecklistRef_String R := data]> b]> db)).
Proof.
  unfold AddCheck, stored_checks.
  destruct (ChecklistRef_Validate R) eqn:Hv; [done|].
  unfold db_Update, Tx_Bucket.
  destruct (db !! boltBucketNameChecks) as [b|] eqn:Hb; [|done].
  rewrite (Bucket_Get_Some _ _ _ _ Hb). simpl.
  set (key := ChecklistRef_String R).
  destruct (b !! key) as [data|] eqn:Hk.
  - destruct (json_Unmarshal data) as [checks [e|]] eqn:Hd; [done|].
    unfold Checks_Add. case_decide as Hin; simpl.
    + intros [= <-]. exists b, (default ∅ checks). eauto 10.
    + destruct (json_Marshal _) as [out|e] eqn:Hm; [|done].
      destruct (Bucket_Put_cases db _ b key out Hb) as [(-> & _)|(e & -> & _)]; [|done].
      intros [= <-]. exists b, (default ∅ checks). destruct checks; eauto 12.
  - unfold Checks_Add. case_decide as Hin; simpl.
    + intros [= <-]. exists b, ∅. eauto 10.
    + destruct (json_Marshal _) as [out|e] eqn:Hm; [|done].
      destruct (Bucket_Put_cases db _ b key out Hb) as [(-> & _)|(e & -> & _)]; [|done].
      intros [= <-]. exists b, ∅. eauto 12.
Qed.

Lemma RemoveCheck_success db R K U db1 :
  RemoveCheck db R K U = Return (db1, None) ->
  exists b m,
    ChecklistRef_Validate R = None /\
    db !! boltBucketNameChecks = Some b /\
    stored_checks db R = Some m /\
    (((ID U ∉ default ∅ (m !! K)) /\ db1 = db) \/
     ((ID U ∈ default ∅ (m !! K)) /\
      exists data,
        json_Marshal (Some (<[K := default ∅ (m !! K) ∖ {[ID U]}]> m)) = inl data /\
        db1 = <[boltBucketNameChecks := <[ChecklistRef_String R := data]> b]> db)).
Proof.
  unfold RemoveCheck, stored_checks.
  destruct (ChecklistRef_Validate R) eqn:Hv; [done|].
  unfold db_Update, Tx_Bucket.
  destruct (db !! boltBucketNameChecks) as [b|] eqn:Hb; [|done].
  rewrite (Bucket_Get_Some _ _ _ _ Hb). simpl.
  set (key := ChecklistRef_String R).
  destruct (b !! key) as [data|] eqn:Hk.
  - destruct (json_Unmarshal data) as [checks [e|]] eqn:Hd; [done|].
    unfold Checks_Remove. case_decide as Hin; simpl.
    + destruct (json_Marshal _) as [out|e] eqn:Hm; [|done].
      destruct (Bucket_Put_cases db _ b key out Hb) as [(-> & _)|(e & -> & _)]; [|done].
      intros [= <-]. exists b, (default ∅ checks). destruct checks; eauto 12.
    + intros [= <-]. exists b, (default ∅ checks). eauto 10.
  - unfold Checks_Remove. case_decide as Hin; simpl.
    + destruct (json_Marshal _) as [out|e] eqn:Hm; [|done].
      destruct (Bucket_Put_cases db _ b key out Hb) as [(-> & _)|(e & -> & _)]; [|done].
      intros [= <-]. exists b, ∅. eauto 12.
    + intros [= <-]. exists b, ∅. eauto 10.
Qed.

(** A store whose check set for [R] decodes has a checks bucket, and the
    operations read that check set from it. *)
Lemma stored_checks_Some db R m :
  stored_checks db R = Some m ->
  exists b,
    db !! boltBucketNameChecks = Some b /\
    exists checks,
      match b !! ChecklistRef_String R with
      | Some data => json_Unmarshal data
      | None => (None, None)
      end = (checks, None) /\
      m = default ∅ checks.
Proof.
  unfold stored_checks.
  destruct (db !! boltBucketNameChecks) as [b|]; [|done]. simpl.
  intros Hm. exists b. split; [done|].
  destruct (b !! ChecklistRef_String R) as [data|].
  - destruct (json_Unmarshal data) as [checks [e|]]; [done|].
    exists checks. by injection Hm as <-.
  - exists None. by injection Hm as <-.
Qed.

Lemma AddCheck_present db R K U m :
  stored_checks db R = Some m ->
  ID U ∈ default ∅ (m !! K) ->
  AddCheck db R K U = Return (db, ChecklistRef_Validate R).
Proof.
  intros (b & Hb & checks & Hd & ->)%stored_checks_Some Hin.
  unfold AddCheck. destruct (ChecklistRef_Validate R); [done|].
  unfold db_Update, Tx_Bucket. rewrite Hb, (Bucket_Get_Some _ _ _ _ Hb). simpl.
  rewrite Hd. unfold Checks_Add. by rewrite decide_True.
Qed.

Lemma RemoveCheck_absent db R K U m :
  stored_checks db R = Some m ->
  ID U ∉ default ∅ (m !! K) ->
  RemoveCheck db R K U = Return (db, ChecklistRef_Validate R).
Proof.
  intros (b & Hb & checks & Hd & ->)%stored_checks_Some Hin.
  unfold RemoveCheck. destruct (ChecklistRef_Validate R); [done|].
  unfold db_Update, Tx_Bucket. rewrite Hb, (Bucket_Get_Some _ _ _ _ Hb). simpl.
  rewrite Hd. unfold Checks_Remove. by rewrite decide_False.
Qed.

(** What GetChecks returns on a store whose entry for [R] was written by
    the codec. *)
Lemma GetChecks_written `{!JSONLaws (option (gmap string (gset Z)))} db b R m data :
  ChecklistRef_Validate R = None ->
  json_Marshal (Some m) = inl data ->
  GetChecks (<[boltBucketNameChecks := <[ChecklistRef_String R := data]> b]> db) R
  = Return (Some m, None).
Proof.
  intros Hv Hm. unfold GetChecks, db_View, Tx_Bucket. rewrite Hv.
  rewrite lookup_insert_eq.
  erewrite Bucket_Get_Some by apply lookup_insert_eq.
  rewrite lookup_insert_eq. simpl.
  by rewrite (unmarshal_marshal _ _ Hm).
Qed.

Lemma stored_checks_written `{!JSONLaws (option (gmap string (gset Z)))} db b R m data :
  json_Marshal (Some m) = inl data ->
  stored_checks (<[boltBucketNameChecks := <[ChecklistRef_String R := data]> b]> db) R
  = Some m.
Proof.
  intros Hm. unfold stored_checks. rewrite lookup_insert_eq. simpl.
  rewrite lookup_insert_eq. by rewrite (unmarshal_marshal _ _ Hm).
Qed.

Lemma GetChecks_stored db R m :
  ChecklistRef_Validate R = None ->
  stored_checks db R = Some m ->
  exists checks, GetChecks db R = Return (checks, None) /\ default ∅ checks = m.
Proof.
  intros Hv (b & Hb & checks & Hd & ->)%stored_checks_Some.
  exists checks. split; [|done].
  unfold GetChecks, db_View, Tx_Bucket. rewrite Hv, Hb, (Bucket_Get_Some _ _ _ _ Hb). simpl.
  destruct (b !! ChecklistRef_String R) as [data|].
  - by rewrite Hd.
  - by injection Hd as <-.
Qed.

Lemma checked_by_default (checks : Checks) K :
  checked_by checks K = default ∅ (default ∅ checks !! K).
Proof. by destruct checks. Qed.

(** *** Validation comes first *)

(** C5: with a reference that fails validation, GetChecks, AddCheck and
    RemoveCheck return the validation error itself and the database they
    were given, whatever that database is: also one without a checks
    bucket, on which any access to storage would panic. *)
Theorem invalid_reference_fails_before_storage db R K U err :
  ChecklistRef_Validate R = Some err ->
  GetChecks db R = Return (None, Some err) /\
  AddCheck db R K U = Return (db, Some err) /\
  RemoveCheck db R K U = Return (db, Some err).
Proof.
  intros Hv. unfold GetChecks, AddCheck, RemoveCheck. by rewrite Hv.
Qed.

(** C4: for a valid reference whose key is absent from the checks
    bucket, GetChecks returns the nil check set, in which no item has a
    checker, and a nil error. *)
Theorem GetChecks_fresh_reference db b R :
  ChecklistRef_Validate R = None ->
  db !! boltBucketNameChecks = Some b ->
  b !! ChecklistRef_String R = None ->
  GetChecks db R = Return (None, None) /\
  forall K, checked_by None K = ∅.
Proof.
  intros Hv Hb Hk. split; [|done].
  unfold GetChecks, db_View. rewrite Hv, (Tx_Bucket_Some _ _ _ Hb).
  rewrite (Bucket_Get_Some _ _ _ _ Hb), Hk. done.
Qed.

(** C6: when the bytes stored for a valid reference do not decode,
    AddCheck and RemoveCheck return the decoding error and the database
    as it was before the call. *)
Theorem corrupt_entry_aborts_write db b R K U data checks err :
  ChecklistRef_Validate R = None ->
  db !! boltBucketNameChecks = Some b ->
  b !! ChecklistRef_String R = Some data ->
  json_Unmarshal data = (checks, Some err) ->
  AddCheck db R K U = Return (db, Some err) /\
  RemoveCheck db R K U = Return (db, Some err).
Proof.
  intros Hv Hb Hk Hd. unfold AddCheck, RemoveCheck, db_Update.
  rewrite Hv, (Tx_Bucket_Some _ _ _ Hb), (Bucket_Get_Some _ _ _ _ Hb), Hk.
  simpl. rewrite Hd. done.
Qed.

(** C10: GetUsers on the empty list returns a non-nil empty map and a
    nil error on every database, with or without a users bucket. *)
Theorem GetUsers_empty_list db :
  GetUsers db [] = Return (Some ∅, None).
Proof. reflexivity. Qed.

(** *** Writes that go through *)

Lemma Bucket_Put_accepted db name b key value :
  db !! name = Some b ->
  Put_accepts key value ->
  Bucket_Put db (Some name) key value = Return (<[name := <[key := value]> b]> db, None).
Proof.
  intros Hb (Hk0 & Hk & Hv). unfold Bucket_Put. rewrite Hb.
  rewrite bool_decide_false by done. by rewrite !bool_decide_false by lia.
Qed.

(** What GetChecks and [stored_checks] find in an entry that was just
    written, by what the codec makes of the bytes. *)
Lemma GetChecks_entry db b R data checks :
  ChecklistRef_Validate R = None ->
  json_Unmarshal data = (checks, None) ->
  GetChecks (<[boltBucketNameChecks := <[ChecklistRef_String R := data]> b]> db) R
  = Return (checks, None).
Proof.
  intros Hv Hd. unfold GetChecks, db_View, Tx_Bucket. rewrite Hv.
  rewrite lookup_insert_eq.
  erewrite Bucket_Get_Some by apply lookup_insert_eq.
  rewrite lookup_insert_eq. simpl. by rewrite Hd.
Qed.

Lemma stored_checks_entry db b R data m :
  json_Unmarshal data = (Some m, None) ->
  stored_checks (<[boltBucketNameChecks := <[ChecklistRef_String R := data]> b]> db) R
  = Some m.
Proof.
  intros Hd. unfold stored_checks. rewrite lookup_insert_eq. simpl.
  rewrite lookup_insert_eq. by rewrite Hd.
Qed.

(** AddCheck of a user who is not in the item's set encodes the enlarged
    check set and puts it. *)
Lemma AddCheck_absent db b R K U m data :
  ChecklistRef_Validate R = None ->
  db !! boltBucketNameChecks = Some b ->
  stored_checks db R = Some m ->
  ID U ∉ default ∅ (m !! K) ->
  json_Marshal (Some (Checks_Add m K U).1) = inl data ->
  Put_accepts (ChecklistRef_String R) data ->
  AddCheck db R K U
  = Return (<[boltBucketNameChecks := <[ChecklistRef_String R := data]> b]> db, None).
Proof.
  intros Hv Hb (b' & Hb' & checks & Hd & ->)%stored_checks_Some Hout Hm Hput.
  rewrite Hb in Hb'. injection Hb' as <-.
  unfold AddCheck. rewrite Hv.
  unfold db_Update, Tx_Bucket. rewrite Hb, (Bucket_Get_Some _ _ _ _ Hb). simpl.
  rewrite Hd. unfold Checks_Add in *.
  destruct checks as [m|]; simpl in *;
    rewrite decide_False in Hm by done; rewrite decide_False by done;
    simpl in *; rewrite Hm; by rewrite (Bucket_Put_accepted _ _ _ _ _ Hb Hput).
Qed.

(** RemoveCheck of a user who is in the item's set encodes the reduced
    check set and puts it. *)
Lemma RemoveCheck_present db b R K U m data :
  ChecklistRef_Validate R = None ->
  db !! boltBucketNameChecks = Some b ->
  stored_checks db R = Some m ->
  ID U ∈ default ∅ (m !! K) ->
  json_Marshal (Some (Checks_Remove m K U).1) = inl data ->
  Put_accepts (ChecklistRef_String R) data ->
  RemoveCheck db R K U
  = Return (<[boltBucketNameChecks := <[ChecklistRef_String R := data]> b]> db, None).
Proof.
  intros Hv Hb (b' & Hb' & checks & Hd & ->)%stored_checks_Some Hin Hm Hput.
  rewrite Hb in Hb'. injection Hb' as <-.
  unfold RemoveCheck. rewrite Hv.
  unfold db_Update, Tx_Bucket. rewrite Hb, (Bucket_Get_Some _ _ _ _ Hb). simpl.
  rewrite Hd. unfold Checks_Remove in *.
  destruct checks as [m|]; simpl in *;
    rewrite decide_True in Hm by done; rewrite decide_True by done;
    simpl in *; rewrite Hm; by rewrite (Bucket_Put_accepted _ _ _ _ _ Hb Hput).
Qed.

(** *** Idempotence and round trip *)


(** C3, as the code has it: on a store whose check set for a valid
    reference R decodes, when the codec reads back the two check sets that
    the calls write and the engine accepts their bytes, AddCheck(R,K,U)
    succeeds and GetChecks(R) then returns a check set in which item K's
    set contains U; RemoveCheck(R,K,U) then succeeds and GetChecks(R)
    returns a check set in which item K's set does not contain U. *)
Theorem check_round_trip db b R K U m data1 data2 :
  ChecklistRef_Validate R = None ->
  db !! boltBucketNameChecks = Some b ->
  stored_checks db R = Some m ->
  reads_back (Checks_Add m K U).1 data1 ->
  Put_accepts (ChecklistRef_String R) data1 ->
  reads_back (Checks_Remove (Checks_Add m K U).1 K U).1 data2 ->
  Put_accepts (ChecklistRef_String R) data2 ->
  exists db1 db2 checks1 checks2,
    AddCheck db R K U = Return (db1, None) /\
    GetChecks db1 R = Return (checks1, None) /\
    ID U ∈ checked_by checks1 K /\
    RemoveCheck db1 R K U = Return (db2, None) /\
    GetChecks db2 R = Return (checks2, None) /\
    ID U ∉ checked_by checks2 K.
Proof.
  intros Hv Hb Hm [Henc1 Hdec1] Hput1 [Henc2 Hdec2] Hput2.
  set (m1 := (Checks_Add m K U).1) in *.
  assert (ID U ∈ default ∅ (m1 !! K)) as Hin1.
  { unfold m1, Checks_Add. case_decide as Hin; simpl; [done|].
    rewrite lookup_insert_eq. simpl. apply elem_of_union_r, elem_of_singleton. done. }
  assert (exists db1 b1 checks1,
            AddCheck db R K U = Return (db1, None) /\
            db1 !! boltBucketNameChecks = Some b1 /\
            stored_checks db1 R = Some m1 /\
            GetChecks db1 R = Return (checks1, None) /\
            default ∅ checks1 = m1) as (db1 & b1 & checks1 & Hadd & Hb1 & Hm1 & Hget1 & Hc1).
  { destruct (decide (ID U ∈ default ∅ (m !! K))) as [Hin|Hout].
    - assert (m1 = m) as -> by (unfold m1, Checks_Add; by rewrite decide_True).
      destruct (GetChecks_stored _ _ _ Hv Hm) as (checks1 & Hget & Hc).
      exists db, b, checks1. repeat split; try done.
      rewrite <- Hv. by eapply AddCheck_present.
    - eexists _, _, (Some m1). split; [by eapply AddCheck_absent|].
      split; [apply lookup_insert_eq|].
      split; [by apply stored_checks_entry|].
      split; [by apply GetChecks_entry|done]. }
  exists db1, (<[boltBucketNameChecks := <[ChecklistRef_String R := data2]> b1]> db1),
    checks1, (Some (Checks_Remove m1 K U).1).
  split; [done|]. split; [done|].
  split; [by rewrite checked_by_default, Hc1|].
  split; [by eapply RemoveCheck_present|].
  split; [by apply GetChecks_entry|].
  unfold Checks_Remove. rewrite decide_True by done. simpl.
  rewrite lookup_insert_eq. simpl.
  rewrite elem_of_difference, elem_of_singleton. tauto.
Qed.

(** *** Users *)

Lemma stored_user_Some b id :
  is_Some (stored_user b id) ->
  exists buf user,
    b !! strconv_FormatInt id = Some buf /\
    json_Unmarshal buf = (user, None) /\
    stored_user b id = Some user.
Proof.
  unfold stored_user. intros [u Hu].
  destruct (b !! strconv_FormatInt id) as [buf|]; [|done]. simpl in *.
  destruct (json_Unmarshal buf) as [user [e|]] eqn:Hdec; [done|].
  exists buf, user. by rewrite Hdec.
Qed.

(** The loop up to the first identifier without a record: the map holds
    the records of the identifiers before it, over what it held. *)
Lemma GetUsers_range_missing tx name b pre id post (acc : gmap Z GitHubUser) :
  tx !! name = Some b ->
  Forall (fun i => is_Some (stored_user b i)) pre ->
  b !! strconv_FormatInt id = None ->
  exists users,
    GetUsers_range tx (Some name) (pre ++ id :: post) acc
    = Return (users, Some (NotFound id)) /\
    forall i, users !! i = if decide (i ∈ pre) then stored_user b i else acc !! i.
Proof.
  intros Hb Hpre Hid. revert acc.
  induction Hpre as [|a pre Ha Hpre IH]; intros acc; simpl.
  - rewrite (Bucket_Get_Some _ _ _ _ Hb), Hid. simpl.
    by exists acc.
  - apply stored_user_Some in Ha as (buf & user & Hbuf & Hdec & Hst).
    rewrite (Bucket_Get_Some _ _ _ _ Hb), Hbuf. simpl. rewrite Hdec.
    destruct (IH (<[a := user]> acc)) as (users & -> & Husers).
    exists users. split; [done|]. intros i. rewrite Husers.
    destruct (decide (i ∈ pre)) as [Hi|Hi].
    + by rewrite decide_True by (by apply list_elem_of_further).
    + destruct (decide (i = a)) as [->|Hne].
      * rewrite decide_True by apply list_elem_of_here. by rewrite lookup_insert_eq.
      * rewrite decide_False by (by intros [?|?]%elem_of_cons).
        by rewrite lookup_insert_ne.
Qed.

(** The loop fails whenever some identifier of the list has no record. *)
Lemma GetUsers_range_fails tx name b ids (acc : gmap Z GitHubUser) :
  tx !! name = Some b ->
  (exists i, i ∈ ids /\ b !! strconv_FormatInt i = None) ->
  exists users e, GetUsers_range tx (Some name) ids acc = Return (users, Some e).
Proof.
  intros Hb. revert acc. induction ids as [|a ids IH]; intros acc (i & Hi & Hnone).
  - by apply elem_of_nil in Hi.
  - simpl. rewrite (Bucket_Get_Some _ _ _ _ Hb). simpl.
    destruct (b !! strconv_FormatInt a) as [buf|] eqn:Hbuf; [|eauto].
    destruct (json_Unmarshal buf) as [user [e|]]; [eauto|].
    apply IH. exists i. split; [|done].
    apply elem_of_cons in Hi as [->|Hi]; [congruence|done].
Qed.

(** C1, as the code has it: when some requested identifier has no record,
    GetUsers returns an error wrapped as GetUsers; when the records of the
    identifiers before the first missing one all decode, that error is the
    not-found error of the missing identifier, and the map returned with
    it holds exactly the records of the identifiers before it. *)
Theorem GetUsers_fails_at_first_missing db b :
  db !! boltBucketNameUsers = Some b ->
  (forall ids, (exists i, i ∈ ids /\ b !! strconv_FormatInt i = None) ->
     exists users e, GetUsers db ids = Return (Some users, Some (Wrap e "GetUsers"))) /\
  (forall pre id post,
     Forall (fun i => is_Some (stored_user b i)) pre ->
     b !! strconv_FormatInt id = None ->
     exists users,
       GetUsers db (pre ++ id :: post)
       = Return (Some users, Some (Wrap (NotFound id) "GetUsers")) /\
       forall i, users !! i = if decide (i ∈ pre) then stored_user b i else None).
Proof.
  intros Hb. split.
  - intros ids Hmiss. unfold GetUsers, db_View, Tx_Bucket. rewrite Hb.
    destruct (GetUsers_range_fails db _ b ids ∅ Hb Hmiss) as (users & e & ->).
    simpl. eauto.
  - intros pre id post Hpre Hid. unfold GetUsers, db_View, Tx_Bucket. rewrite Hb.
    destruct (GetUsers_range_missing db _ b pre id post ∅ Hb Hpre Hid)
      as (users & -> & Husers).
    simpl. exists users. split; [done|]. intros i. rewrite Husers.
    by rewrite lookup_empty.
Qed.

Lemma strconv_FormatInt_nonempty (i : Z) : strconv_FormatInt i <> EmptyString.
Proof.
  unfold strconv_FormatInt. destruct (Z.to_int i) as [d|d]; simpl; [|done].
  destruct d; simpl; done.
Qed.

(** The decimal string of a 64-bit integer has between 1 and 65 bytes: a
    doubling adds at most one digit. *)
Lemma length_string_of_uint (d : Decimal.uint) :
  String.length (NilEmpty.string_of_uint d) = Decimal.nb_digits d.
Proof. induction d; simpl; congruence. Qed.

Lemma nb_digits_double (d : Decimal.uint) :
  (Decimal.nb_digits (Decimal.Little.double d) <= S (Decimal.nb_digits d))%nat /\
  (Decimal.nb_digits (Decimal.Little.succ_double d) <= S (Decimal.nb_digits d))%nat.
Proof. induction d; simpl; lia. Qed.

Lemma nb_digits_to_little_uint (p : positive) :
  (Decimal.nb_digits (Pos.to_little_uint p) <= Pos.size_nat p)%nat.
Proof.
  induction p as [p IH|p IH|]; simpl; [| |done].
  - pose proof (proj2 (nb_digits_double (Pos.to_little_uint p))). lia.
  - pose proof (proj1 (nb_digits_double (Pos.to_little_uint p))). lia.
Qed.

Lemma length_to_uint (p : positive) :
  (p < 2 ^ 63)%positive ->
  (String.length (NilEmpty.string_of_uint (Pos.to_uint p)) <= 64)%nat.
Proof.
  intros Hp. rewrite length_string_of_uint. unfold Pos.to_uint.
  rewrite DecimalFacts.nb_digits_rev.
  etrans; [apply nb_digits_to_little_uint|].
  change 64%nat with (Pos.size_nat (2 ^ 63)).
  by apply Pos.size_nat_monotone.
Qed.

Lemma length_strconv_FormatInt (i : Z) :
  - 2 ^ 63 <= i < 2 ^ 63 ->
  (0 < String.length (strconv_FormatInt i) <= 65)%nat.
Proof.
  intros Hi. unfold strconv_FormatInt. destruct i as [|p|p]; simpl.
  - lia.
  - pose proof (DecimalPos.Unsigned.to_uint_nonnil p).
    assert (p < 2 ^ 63)%positive as Hp by lia.
    apply length_to_uint in Hp.
    destruct (Pos.to_uint p) eqn:E; simpl in *; try done; lia.
  - pose proof (DecimalPos.Unsigned.to_uint_nonnil p).
    destruct (decide (p = 2 ^ 63)%positive) as [->|Hne]; [vm_compute; lia|].
    assert (p < 2 ^ 63)%positive as Hp by lia.
    apply length_to_uint in Hp.
    destruct (Pos.to_uint p) eqn:E; simpl in *; try done; lia.
Qed.

(** C9: AddUser checks nothing about the identifier.  For every user with
    a 64-bit identifier, zero and negative ones included, whose record the
    codec encodes into a value the engine accepts, AddUser succeeds and
    binds the decimal string of the identifier to the encoded record in the
    users bucket. *)
Theorem AddUser_any_identifier db b user buf :
  db !! boltBucketNameUsers = Some b ->
  - 2 ^ 63 <= ID user < 2 ^ 63 ->
  json_Marshal user = inl buf ->
  Z.of_nat (String.length buf) <= MaxValueSize ->
  AddUser db user
  = Return (<[boltBucketNameUsers := <[strconv_FormatInt (ID user) := buf]> b]> db, None).
Proof.
  intros Hb Hid Hm Hval. unfold AddUser, db_Update, Tx_Bucket. rewrite Hb, Hm.
  unfold Bucket_Put. rewrite Hb.
  pose proof (length_strconv_FormatInt (ID user) Hid) as Hlen.
  unfold MaxKeySize. rewrite !bool_decide_false by lia. done.
Qed.

(** *** Where errors come from *)

Lemma GetUsers_range_error tx name b ids (acc users : gmap Z GitHubUser) e :
  tx !! name = Some b ->
  GetUsers_range tx (Some name) ids acc = Return (users, Some e) ->
  exists i, i ∈ ids /\
    ((b !! strconv_FormatInt i = None /\ e = NotFound i) \/
     (exists buf user,
        b !! strconv_FormatInt i = Some buf /\ json_Unmarshal buf = (user, Some e))).
Proof.
  intros Hb. revert acc. induction ids as [|a ids IH]; intros acc; simpl; [done|].
  rewrite (Bucket_Get_Some _ _ _ _ Hb). simpl.
  destruct (b !! strconv_FormatInt a) as [buf|] eqn:Hbuf.
  - destruct (json_Unmarshal buf) as [user [e'|]] eqn:Hdec.
    + intros [= _ ->]. exists a. split; [apply list_elem_of_here|]. eauto.
    + intros (i & Hi & Hcase)%IH. exists i. split; [by apply list_elem_of_further|done].
  - intros [= _ <-]. exists a. split; [apply list_elem_of_here|]. eauto.
Qed.

Lemma GetUsers_range_success tx name b ids (acc users : gmap Z GitHubUser) :
  tx !! name = Some b ->
  GetUsers_range tx (Some name) ids acc = Return (users, None) ->
  Forall (fun i => is_Some (stored_user b i)) ids.
Proof.
  intros Hb. revert acc. induction ids as [|a ids IH]; intros acc; simpl; [done|].
  rewrite (Bucket_Get_Some _ _ _ _ Hb). simpl.
  destruct (b !! strconv_FormatInt a) as [buf|] eqn:Hbuf; [|done].
  destruct (json_Unmarshal buf) as [user [e'|]] eqn:Hdec; [done|].
  intros Hrest%IH. constructor; [|done].
  unfold stored_user. rewrite Hbuf. simpl. rewrite Hdec. eauto.
Qed.

Lemma AddUser_outcome db user db' (r : option error) :
  AddUser db user = Return (db', r) ->
  match r with
  | Some e => db' = db /\ (json_Marshal user = inr e \/ Put_error e)
  | None =>
      exists b buf,
        db !! boltBucketNameUsers = Some b /\
        json_Marshal user = inl buf /\
        db' = <[boltBucketNameUsers := <[strconv_FormatInt (ID user) := buf]> b]> db
  end.
Proof.
  unfold AddUser, db_Update, Tx_Bucket.
  destruct (json_Marshal user) as [buf|e] eqn:Hm; simpl.
  - destruct (db !! boltBucketNameUsers) as [b|] eqn:Hb; [|done].
    destruct (Bucket_Put_cases db _ b (strconv_FormatInt (ID user)) buf Hb)
      as [(-> & _)|(e & -> & He)]; simpl; intros [= <- <-]; eauto 8.
  - intros [= <- <-]. eauto.
Qed.

(** Every error AddCheck returns is the error of the step that failed,
    and the database is then the one it was given. *)
Lemma AddCheck_error db R K U db' e :
  AddCheck db R K U = Return (db', Some e) ->
  db' = db /\
  (ChecklistRef_Validate R = Some e \/
   (exists b data checks,
      db !! boltBucketNameChecks = Some b /\
      b !! ChecklistRef_String R = Some data /\
      json_Unmarshal data = (checks, Some e)) \/
   (exists m, json_Marshal (Some m) = inr e) \/
   Put_error e).
Proof.
  unfold AddCheck.
  destruct (ChecklistRef_Validate R) eqn:Hv; [intros [= <- <-]; eauto|].
  unfold db_Update, Tx_Bucket.
  destruct (db !! boltBucketNameChecks) as [b|] eqn:Hb; [|done].
  rewrite (Bucket_Get_Some _ _ _ _ Hb). simpl.
  set (key := ChecklistRef_String R).
  assert (forall checks : gmap string (gset Z),
    (let '(checks, changed) := Checks_Add checks K U in
     if negb changed then Return (db, None)
     else match json_Marshal (Some checks) with
          | inl data => Bucket_Put db (Some boltBucketNameChecks) key data
          | inr err => Return (db, Some err)
          end) ≫= (fun pat : DB * option error =>
                     match pat with
                     | (tx, Some e0) => Return (db, Some e0)
                     | (tx, None) => Return (tx, None)
                     end) = Return (db', Some e) ->
    db' = db /\ ((exists m, json_Marshal (Some m) = inr e) \/ Put_error e)) as Hrest.
  { intros checks. destruct (Checks_Add checks K U) as [m [|]]; simpl; [|done].
    destruct (json_Marshal (Some m)) as [out|e'] eqn:Hm.
    - destruct (Bucket_Put_cases db _ b key out Hb) as [(-> & _)|(e' & -> & He)];
        simpl; [done|]. intros [= <- <-]. eauto.
    - simpl. intros [= <- <-]. eauto. }
  destruct (b !! key) as [data|] eqn:Hk.
  - destruct (json_Unmarshal data) as [checks [e'|]] eqn:Hd.
    + simpl. intros [= <- <-]. split; [done|]. right. left. eauto 10.
    + intros (-> & Hcase)%Hrest. tauto.
  - intros (-> & Hcase)%Hrest. tauto.
Qed.

Lemma RemoveCheck_error db R K U db' e :
  RemoveCheck db R K U = Return (db', Some e) ->
  db' = db /\
  (ChecklistRef_Validate R = Some e \/
   (exists b data checks,
      db !! boltBucketNameChecks = Some b /\
      b !! ChecklistRef_String R = Some data /\
      json_Unmarshal data = (checks, Some e)) \/
   (exists m, json_Marshal (Some m) = inr e) \/
   Put_error e).
Proof.
  unfold RemoveCheck.
  destruct (ChecklistRef_Validate R) eqn:Hv; [intros [= <- <-]; eauto|].
  unfold db_Update, Tx_Bucket.
  destruct (db !! boltBucketNameChecks) as [b|] eqn:Hb; [|done].
  rewrite (Bucket_Get_Some _ _ _ _ Hb). simpl.
  set (key := ChecklistRef_String R).
  assert (forall checks : gmap string (gset Z),
    (let '(checks, changed) := Checks_Remove checks K U in
     if negb changed then Return (db, None)
     else match json_Marshal (Some checks) with
          | inl data => Bucket_Put db (Some boltBucketNameChecks) key data
          | inr err => Return (db, Some err)
          end) ≫= (fun pat : DB * option error =>
                     match pat with
                     | (tx, Some e0) => Return (db, Some e0)
                     | (tx, None) => Return (tx, None)
                     end) = Return (db', Some e) ->
    db' = db /\ ((exists m, json_Marshal (Some m) = inr e) \/ Put_error e)) as Hrest.
  { intros checks. destruct (Checks_Remove checks K U) as [m [|]]; simpl; [|done].
    destruct (json_Marshal (Some m)) as [out|e'] eqn:Hm.
    - destruct (Bucket_Put_cases db _ b key out Hb) as [(-> & _)|(e' & -> & He)];
        simpl; [done|]. intros [= <- <-]. eauto.
    - simpl. intros [= <- <-]. eauto. }
  destruct (b !! key) as [data|] eqn:Hk.
  - destruct (json_Unmarshal data) as [checks [e'|]] eqn:Hd.
    + simpl. intros [= <- <-]. split; [done|]. right. left. eauto 10.
    + intros (-> & Hcase)%Hrest. tauto.
  - intros (-> & Hcase)%Hrest. tauto.
Qed.

Lemma GetChecks_outcome db R checks (r : option error) :
  GetChecks db R = Return (checks, r) ->
  match r with
  | Some e =>
      ChecklistRef_Validate R = Some e \/
      (exists e0 b data,
         e = Wrap e0 "GetChecks" /\
         ChecklistRef_Validate R = None /\
         db !! boltBucketNameChecks = Some b /\
         b !! ChecklistRef_String R = Some data /\
         json_Unmarshal data = (checks, Some e0))
  | None => ChecklistRef_Validate R = None /\ is_Some (stored_checks db R)
  end.
Proof.
  unfold GetChecks, stored_checks.
  destruct (ChecklistRef_Validate R) eqn:Hv; [intros [= <- <-]; eauto|].
  unfold db_View, Tx_Bucket.
  destruct (db !! boltBucketNameChecks) as [b|] eqn:Hb; [|done].
  rewrite (Bucket_Get_Some _ _ _ _ Hb). simpl.
  destruct (b !! ChecklistRef_String R) as [data|] eqn:Hk.
  - destruct (json_Unmarshal data) as [c [e|]] eqn:Hd; simpl; intros [= <- <-].
    + right. eauto 10.
    + eauto.
  - simpl. intros [= <- <-]. eauto.
Qed.

(** A Put either accepts the pair and binds it, or refuses it with one
    of its errors and leaves the transaction as it was. *)
Lemma Bucket_Put_outcome db name b key value :
  db !! name = Some b ->
  (Put_accepts key value /\
   Bucket_Put db (Some name) key value = Return (<[name := <[key := value]> b]> db, None)) \/
  (~ Put_accepts key value /\
   exists e, Put_error e /\ Bucket_Put db (Some name) key value = Return (db, Some e)).
Proof.
  intros Hb. unfold Bucket_Put, Put_accepts, Put_error. rewrite Hb.
  repeat case_bool_decide.
  - right. split; [tauto|]. eauto.
  - right. split; [lia|]. eauto.
  - right. split; [lia|]. eauto.
  - left. split; [lia|done].
Qed.

(** Every way AddUser returns. *)
Lemma AddUser_cases db user db' (r : option error) :
  AddUser db user = Return (db', r) ->
  match r with
  | None =>
      exists b buf,
        db !! boltBucketNameUsers = Some b /\
        json_Marshal user = inl buf /\
        Put_accepts (strconv_FormatInt (ID user)) buf /\
        db' = <[boltBucketNameUsers := <[strconv_FormatInt (ID user) := buf]> b]> db
  | Some e =>
      db' = db /\
      (json_Marshal user = inr e \/
       exists buf,
         json_Marshal user = inl buf /\
         ~ Put_accepts (strconv_FormatInt (ID user)) buf /\ Put_error e)
  end.
Proof.
  unfold AddUser, db_Update, Tx_Bucket.
  destruct (json_Marshal user) as [buf|e] eqn:Hm; simpl.
  - destruct (db !! boltBucketNameUsers) as [b|] eqn:Hb; [|done].
    destruct (Bucket_Put_outcome db _ b (strconv_FormatInt (ID user)) buf Hb)
      as [(Hacc & ->)|(Hacc & e & He & ->)]; simpl; intros [= <- <-]; eauto 10.
  - intros [= <- <-]. eauto.
Qed.

(** Every way AddCheck returns. *)
Lemma AddCheck_cases db R K U db' (r : option error) :
  AddCheck db R K U = Return (db', r) ->
  match r with
  | None =>
      exists b m,
        ChecklistRef_Validate R = None /\
        db !! boltBucketNameChecks = Some b /\
        stored_checks db R = Some m /\
        (((ID U ∈ default ∅ (m !! K)) /\ db' = db) \/
         ((ID U ∉ default ∅ (m !! K)) /\
          exists data,
            json_Marshal (Some (Checks_Add m K U).1) = inl data /\
            Put_accepts (ChecklistRef_String R) data /\
            db' = <[boltBucketNameChecks := <[ChecklistRef_String R := data]> b]> db))
  | Some e =>
      db' = db /\
      (ChecklistRef_Validate R = Some e \/
       (ChecklistRef_Validate R = None /\
        ((exists b data checks,
            db !! boltBucketNameChecks = Some b /\
            b !! ChecklistRef_String R = Some data /\
            json_Unmarshal data = (checks, Some e)) \/
         (exists m,
            stored_checks db R = Some m /\
            (ID U ∉ default ∅ (m !! K)) /\
            (json_Marshal (Some (Checks_Add m K U).1) = inr e \/
             exists data,
               json_Marshal (Some (Checks_Add m K U).1) = inl data /\
               ~ Put_accepts (ChecklistRef_String R) data /\ Put_error e)))))
  end.
Proof.
  unfold AddCheck.
  destruct (ChecklistRef_Validate R) as [e0|] eqn:Hv; [intros [= <- <-]; eauto|].
  unfold db_Update, Tx_Bucket.
  destruct (db !! boltBucketNameChecks) as [b|] eqn:Hb; [|done].
  rewrite (Bucket_Get_Some _ _ _ _ Hb). simpl.
  set (key := ChecklistRef_String R).
  set (goal := match r with None => _ | Some e => _ end).
  assert (forall m : gmap string (gset Z),
    stored_checks db R = Some m ->
    (let '(checks, changed) := Checks_Add m K U in
     if negb changed then Return (db, None)
     else match json_Marshal (Some checks) with
          | inl data => Bucket_Put db (Some boltBucketNameChecks) key data
          | inr err => Return (db, Some err)
          end) ≫= (fun pat : DB * option error =>
                     match pat with
                     | (tx, Some e0) => Return (db, Some e0)
                     | (tx, None) => Return (tx, None)
                     end) = Return (db', r) ->
    goal) as Hrest.
  { intros m Hm. unfold goal. clear goal.
    destruct (decide (ID U ∈ default ∅ (m !! K))) as [Hin|Hout].
    - unfold Checks_Add. rewrite decide_True by done. simpl.
      intros [= <- <-]. exists b, m. eauto 10.
    - assert ((Checks_Add m K U).2 = true) as Hch
        by (unfold Checks_Add; by rewrite decide_False).
      destruct (Checks_Add m K U) as [m' changed] eqn:Hadd. simpl in Hch. subst changed.
      simpl. destruct (json_Marshal (Some m')) as [out|e'] eqn:Hmar.
      + destruct (Bucket_Put_outcome db _ b key out Hb)
          as [(Hacc & ->)|(Hacc & e' & He & ->)]; simpl; intros [= <- <-].
        * exists b, m. do 3 (split; [done|]). right. rewrite Hadd. simpl. eauto 10.
        * split; [done|]. right. split; [done|]. right. exists m.
          rewrite Hadd. simpl. eauto 10.
      + simpl. intros [= <- <-].
        split; [done|]. right. split; [done|]. right. exists m.
        rewrite Hadd. simpl. eauto 10. }
  destruct (b !! key) as [data|] eqn:Hk.
  - destruct (json_Unmarshal data) as [checks [e'|]] eqn:Hd.
    + simpl. intros [= <- <-]. unfold goal.
      split; [done|]. right. split; [done|]. left. eauto 10.
    + apply Hrest. unfold stored_checks. rewrite Hb. simpl. fold key. by rewrite Hk, Hd.
  - apply Hrest. unfold stored_checks. rewrite Hb. simpl. fold key. by rewrite Hk.
Qed.

(** Every way RemoveCheck returns. *)
Lemma RemoveCheck_cases db R K U db' (r : option error) :
  RemoveCheck db R K U = Return (db', r) ->
  match r with
  | None =>
      exists b m,
        ChecklistRef_Validate R = None /\
        db !! boltBucketNameChecks = Some b /\
        stored_checks db R = Some m /\
        (((ID U ∉ default ∅ (m !! K)) /\ db' = db) \/
         ((ID U ∈ default ∅ (m !! K)) /\
          exists data,
            json_Marshal (Some (Checks_Remove m K U).1) = inl data /\
            Put_accepts (ChecklistRef_String R) data /\
            db' = <[boltBucketNameChecks := <[ChecklistRef_String R := data]> b]> db))
  | Some e =>
      db' = db /\
      (ChecklistRef_Validate R = Some e \/
       (ChecklistRef_Validate R = None /\
        ((exists b data checks,
            db !! boltBucketNameChecks = Some b /\
            b !! ChecklistRef_String R = Some data /\
            json_Unmarshal data = (checks, Some e)) \/
         (exists m,
            stored_checks db R = Some m /\
            (ID U ∈ default ∅ (m !! K)) /\
            (json_Marshal (Some (Checks_Remove m K U).1) = inr e \/
             exists data,
               json_Marshal (Some (Checks_Remove m K U).1) = inl data /\
               ~ Put_accepts (ChecklistRef_String R) data /\ Put_error e)))))
  end.
Proof.
  unfold RemoveCheck.
  destruct (ChecklistRef_Validate R) as [e0|] eqn:Hv; [intros [= <- <-]; eauto|].
  unfold db_Update, Tx_Bucket.
  destruct (db !! boltBucketNameChecks) as [b|] eqn:Hb; [|done].
  rewrite (Bucket_Get_Some _ _ _ _ Hb). simpl.
  set (key := ChecklistRef_String R).
  set (goal := match r with None => _ | Some e => _ end).
  assert (forall m : gmap string (gset Z),
    stored_checks db R = Some m ->
    (let '(checks, changed) := Checks_Remove m K U in
     if negb changed then Return (db, None)
     else match json_Marshal (Some checks) with
          | inl data => Bucket_Put db (Some boltBucketNameChecks) key data
          | inr err => Return (db, Some err)
          end) ≫= (fun pat : DB * option error =>
                     match pat with
                     | (tx, Some e0) => Return (db, Some e0)
                     | (tx, None) => Return (tx, None)
                     end) = Return (db', r) ->
    goal) as Hrest.
  { intros m Hm. unfold goal. clear goal.
    destruct (decide (ID U ∈ default ∅ (m !! K))) as [Hin|Hout].
    - assert ((Checks_Remove m K U).2 = true) as Hch
        by (unfold Checks_Remove; by rewrite decide_True).
      destruct (Checks_Remove m K U) as [m' changed] eqn:Hrem. simpl in Hch. subst changed.
      simpl. destruct (json_Marshal (Some m')) as [out|e'] eqn:Hmar.
      + destruct (Bucket_Put_outcome db _ b key out Hb)
          as [(Hacc & ->)|(Hacc & e' & He & ->)]; simpl; intros [= <- <-].
        * exists b, m. do 3 (split; [done|]). right. rewrite Hrem. simpl. eauto 10.
        * split; [done|]. right. split; [done|]. right. exists m.
          rewrite Hrem. simpl. eauto 10.
      + simpl. intros [= <- <-].
        split; [done|]. right. split; [done|]. right. exists m.
        rewrite Hrem. simpl. eauto 10.
    - unfold Checks_Remove. rewrite decide_False by done. simpl.
      intros [= <- <-]. exists b, m. eauto 10. }
  destruct (b !! key) as [data|] eqn:Hk.
  - destruct (json_Unmarshal data) as [checks [e'|]] eqn:Hd.
    + simpl. intros [= <- <-]. unfold goal.
      split; [done|]. right. split; [done|]. left. eauto 10.
    + apply Hrest. unfold stored_checks. rewrite Hb. simpl. fold key. by rewrite Hk, Hd.
  - apply Hrest. unfold stored_checks. rewrite Hb. simpl. fold key. by rewrite Hk.
Qed.

(** C7, as the code has it: no error of validation, lookup, decoding,
    encoding or Put is swallowed, and only the read transactions wrap.
    Every error GetUsers returns is the not-found or decoding error of a
    requested identifier, wrapped as GetUsers, and it returns nil only when
    every requested record is stored and decodes.  Every error GetChecks
    returns is the validation error as it is or the decoding error wrapped
    as GetChecks, and it returns nil only for a valid reference whose entry
    is absent or decodes.  AddUser, AddCheck and RemoveCheck return the
    error of the step that failed as it is (validation, decoding, encoding,
    Put) and leave the database unchanged, and they return nil only when
    every step they needed has succeeded: validation, decoding, and, where
    there is a change to write, the encoding and a Put that the engine
    accepted, the database then holding the bytes encoded. *)
Theorem errors_reach_the_caller db :
  (forall ids users e, GetUsers db ids = Return (users, Some e) ->
     exists e0 b i,
       e = Wrap e0 "GetUsers" /\ db !! boltBucketNameUsers = Some b /\ i ∈ ids /\
       ((b !! strconv_FormatInt i = None /\ e0 = NotFound i) \/
        (exists buf user,
           b !! strconv_FormatInt i = Some buf /\
           json_Unmarshal buf = (user, Some e0)))) /\
  (forall ids users b, GetUsers db ids = Return (users, None) ->
     db !! boltBucketNameUsers = Some b ->
     Forall (fun i => is_Some (stored_user b i)) ids) /\
  (forall R checks e, GetChecks db R = Return (checks, Some e) ->
     ChecklistRef_Validate R = Some e \/
     (exists e0 b data,
        e = Wrap e0 "GetChecks" /\
        ChecklistRef_Validate R = None /\
        db !! boltBucketNameChecks = Some b /\
        b !! ChecklistRef_String R = Some data /\
        json_Unmarshal data = (checks, Some e0))) /\
  (forall R checks, GetChecks db R = Return (checks, None) ->
     ChecklistRef_Validate R = None /\ is_Some (stored_checks db R)) /\
  (forall user db' e, AddUser db user = Return (db', Some e) ->
     db' = db /\
     (json_Marshal user = inr e \/
      exists buf,
        json_Marshal user = inl buf /\
        ~ Put_accepts (strconv_FormatInt (ID user)) buf /\ Put_error e)) /\
  (forall user db', AddUser db user = Return (db', None) ->
     exists b buf,
       db !! boltBucketNameUsers = Some b /\
       json_Marshal user = inl buf /\
       Put_accepts (strconv_FormatInt (ID user)) buf /\
       db' = <[boltBucketNameUsers := <[strconv_FormatInt (ID user) := buf]> b]> db) /\
  (forall R K U db' e, AddCheck db R K U = Return (db', Some e) ->
     db' = db /\
     (ChecklistRef_Validate R = Some e \/
      (ChecklistRef_Validate R = None /\
       ((exists b data checks,
           db !! boltBucketNameChecks = Some b /\
           b !! ChecklistRef_String R = Some data /\
           json_Unmarshal data = (checks, Some e)) \/
        (exists m,
           stored_checks db R = Some m /\
           (ID U ∉ default ∅ (m !! K)) /\
           (json_Marshal (Some (Checks_Add m K U).1) = inr e \/
            exists data,
              json_Marshal (Some (Checks_Add m K U).1) = inl data /\
              ~ Put_accepts (ChecklistRef_String R) data /\ Put_error e)))))) /\
  (forall R K U db', AddCheck db R K U = Return (db', None) ->
     exists b m,
       ChecklistRef_Validate R = None /\
       db !! boltBucketNameChecks = Some b /\
       stored_checks db R = Some m /\
       (((ID U ∈ default ∅ (m !! K)) /\ db' = db) \/
        ((ID U ∉ default ∅ (m !! K)) /\
         exists data,
           json_Marshal (Some (Checks_Add m K U).1) = inl data /\
           Put_accepts (ChecklistRef_String R) data /\
           db' = <[boltBucketNameChecks := <[ChecklistRef_String R := data]> b]> db))) /\
  (forall R K U db' e, RemoveCheck db R K U = Return (db', Some e) ->
     db' = db /\
     (ChecklistRef_Validate R = Some e \/
      (ChecklistRef_Validate R = None /\
       ((exists b data checks,
           db !! boltBucketNameChecks = Some b /\
           b !! ChecklistRef_String R = Some data /\
           json_Unmarshal data = (checks, Some e)) \/
        (exists m,
           stored_checks db R = Some m /\
           (ID U ∈ default ∅ (m !! K)) /\
           (json_Marshal (Some (Checks_Remove m K U).1) = inr e \/
            exists data,
              json_Marshal (Some (Checks_Remove m K U).1) = inl data /\
              ~ Put_accepts (ChecklistRef_String R) data /\ Put_error e)))))) /\
  (forall R K U db', RemoveCheck db R K U = Return (db', None) ->
     exists b m,
       ChecklistRef_Validate R = None /\
       db !! boltBucketNameChecks = Some b /\
       stored_checks db R = Some m /\
       (((ID U ∉ default ∅ (m !! K)) /\ db' = db) \/
        ((ID U ∈ default ∅ (m !! K)) /\
         exists data,
           json_Marshal (Some (Checks_Remove m K U).1) = inl data /\
           Put_accepts (ChecklistRef_String R) data /\
           db' = <[boltBucketNameChecks := <[ChecklistRef_String R := data]> b]> db))).
Proof.
  repeat apply conj.
  - intros ids users e. unfold GetUsers, db_View, Tx_Bucket.
    destruct (db !! boltBucketNameUsers) as [b|] eqn:Hb.
    + destruct (GetUsers_range _ _ _ _) as [|[users' [e'|]]] eqn:Hrange; simpl; [done| |done].
      intros [= _ <-].
      destruct (GetUsers_range_error _ _ _ _ _ _ _ Hb Hrange) as (i & Hi & Hcase).
      eauto 10.
    + destruct ids as [|i ids]; simpl; done.
  - intros ids users b. unfold GetUsers, db_View, Tx_Bucket. intros Hget Hb. rewrite Hb in Hget.
    destruct (GetUsers_range _ _ _ _) as [|[users' [e'|]]] eqn:Hrange; simpl in Hget; [done..|].
    by eapply GetUsers_range_success.
  - intros R checks e Hget. apply (GetChecks_outcome _ _ _ _ Hget).
  - intros R checks Hget. apply (GetChecks_outcome _ _ _ _ Hget).
  - intros user db' e Hadd. apply (AddUser_cases _ _ _ _ Hadd).
  - intros user db' Hadd. apply (AddUser_cases _ _ _ _ Hadd).
  - intros R K U db' e Hop. apply (AddCheck_cases _ _ _ _ _ _ Hop).
  - intros R K U db' Hop. apply (AddCheck_cases _ _ _ _ _ _ Hop).
  - intros R K U db' e Hop. apply (RemoveCheck_cases _ _ _ _ _ _ Hop).
  - intros R K U db' Hop. apply (RemoveCheck_cases _ _ _ _ _ _ Hop).
Qed.

(** *** The constructor *)

Lemma slice_from_short (s : string) (n : nat) :
  (String.length s < n)%nat -> slice_from s n = Panic.
Proof.
  revert s. induction n as [|n IH]; intros [|a s] Hlen; simpl in *; try lia; [done|].
  apply IH. lia.
Qed.

Lemma slice_from_append (p s : string) :
  slice_from (p +:+ s) (String.length p) = Return s.
Proof. induction p as [|a p IH]; simpl; [by destruct s|done]. Qed.

(** Once the path is cut out of the datasource, the constructor opens it
    and creates the two buckets. *)
Lemma NewBoltCore_opened (bolt_Open : string -> DB + error) datasource path :
  slice_from datasource 5 = Return path ->
  NewBoltCore bolt_Open datasource
  = match bolt_Open path with
    | inr err => Return (inr err)
    | inl db => Return (inl (bootstrap db))
    end.
Proof.
  intros Hpath. unfold NewBoltCore.
  change (String.length "bolt:") with 5%nat. rewrite Hpath. simpl.
  destruct (bolt_Open path) as [db|err]; [|done].
  unfold db_Update, bootstrap, Tx_CreateBucketIfNotExists. simpl.
  destruct (db !! boltBucketNameUsers); simpl;
    by destruct (_ !! boltBucketNameChecks).
Qed.

(** C8: NewBoltCore panics on a datasource of fewer than five bytes, and
    on a longer one it drops the first five bytes, whatever they are, and
    opens the rest as the path. *)
Theorem NewBoltCore_prefix_unchecked (bolt_Open : string -> DB + error) :
  (forall datasource, (String.length datasource < 5)%nat ->
     NewBoltCore bolt_Open datasource = Panic) /\
  (forall prefix path, String.length prefix = 5%nat ->
     NewBoltCore bolt_Open (prefix +:+ path)
     = match bolt_Open path with
       | inr err => Return (inr err)
       | inl db => Return (inl (bootstrap db))
       end).
Proof.
  split.
  - intros ds Hlen. unfold NewBoltCore.
    by rewrite slice_from_short.
  - intros prefix path Hlen. apply NewBoltCore_opened.
    rewrite <- Hlen. apply slice_from_append.
Qed.

(** *** Every repository has its two buckets, and its operations return *)

Lemma bootstrap_has_buckets db : has_buckets (bootstrap db).
Proof.
  unfold has_buckets, bootstrap, Tx_CreateBucketIfNotExists.
  destruct (db !! boltBucketNameUsers) as [b|] eqn:Hu; simpl.
  - destruct (db !! boltBucketNameChecks) as [c|] eqn:Hc; simpl.
    + by rewrite Hu, Hc.
    + rewrite lookup_insert_ne by done. rewrite Hu, lookup_insert_eq. eauto.
  - rewrite lookup_insert_ne by done.
    destruct (db !! boltBucketNameChecks) as [c|] eqn:Hc; simpl.
    + rewrite lookup_insert_eq, lookup_insert_ne, Hc by done. eauto.
    + rewrite lookup_insert_ne, !lookup_insert_eq by done. eauto.
Qed.

Lemma NewBoltCore_has_buckets (bolt_Open : string -> DB + error) datasource db :
  NewBoltCore bolt_Open datasource = Return (inl db) -> has_buckets db.
Proof.
  destruct (slice_from datasource 5) as [|path] eqn:Hpath.
  - unfold NewBoltCore. change (String.length "bolt:") with 5%nat. by rewrite Hpath.
  - rewrite (NewBoltCore_opened _ _ _ Hpath).
    destruct (bolt_Open path); intros [= <-]. apply bootstrap_has_buckets.
Qed.

Lemma has_buckets_insert db name b :
  has_buckets db -> has_buckets (<[name := b]> db).
Proof.
  intros [Hu Hc]. split; rewrite lookup_insert; case_decide; eauto.
Qed.

(** X12: the write operations keep the two buckets: whatever AddUser,
    AddCheck or RemoveCheck return, the database they leave has both. *)
Lemma writes_keep_buckets db db' (r : option error) R K U user :
  has_buckets db ->
  AddUser db user = Return (db', r) \/
  AddCheck db R K U = Return (db', r) \/
  RemoveCheck db R K U = Return (db', r) ->
  has_buckets db'.
Proof.
  intros Hdb [Hop|[Hop|Hop]]; destruct r as [e|].
  - by apply AddUser_outcome in Hop as [-> _].
  - apply AddUser_outcome in Hop as (b & buf & _ & _ & ->). by apply has_buckets_insert.
  - by apply AddCheck_error in Hop as [-> _].
  - apply AddCheck_success in Hop as (b & m & _ & _ & _ & [[_ ->]|[_ (data & _ & ->)]]);
      [done|by apply has_buckets_insert].
  - by apply RemoveCheck_error in Hop as [-> _].
  - apply RemoveCheck_success in Hop as (b & m & _ & _ & _ & [[_ ->]|[_ (data & _ & ->)]]);
      [done|by apply has_buckets_insert].
Qed.

Lemma GetUsers_range_returns tx name b ids (acc : gmap Z GitHubUser) :
  tx !! name = Some b ->
  exists r, GetUsers_range tx (Some name) ids acc = Return r.
Proof.
  intros Hb. revert acc. induction ids as [|a ids IH]; intros acc; simpl; [eauto|].
  rewrite (Bucket_Get_Some _ _ _ _ Hb). simpl.
  destruct (b !! strconv_FormatInt a) as [buf|]; [|eauto].
  destruct (json_Unmarshal buf) as [user [e|]]; eauto.
Qed.

(** X13: on a database that has the two buckets no operation panics:
    each of the five returns, with a value or an error. *)
Lemma operations_return db ids R K U user :
  has_buckets db ->
  (exists r, AddUser db user = Return r) /\
  (exists r, GetUsers db ids = Return r) /\
  (exists r, GetChecks db R = Return r) /\
  (exists r, AddCheck db R K U = Return r) /\
  (exists r, RemoveCheck db R K U = Return r).
Proof.
  intros [[u Hu] [c Hc]]. repeat apply conj.
  - unfold AddUser, db_Update, Tx_Bucket. rewrite Hu.
    destruct (json_Marshal user) as [buf|e]; simpl; [|eauto].
    destruct (Bucket_Put_cases db _ u (strconv_FormatInt (ID user)) buf Hu)
      as [(-> & _)|(e & -> & _)]; simpl; eauto.
  - unfold GetUsers, db_View, Tx_Bucket. rewrite Hu.
    destruct (GetUsers_range_returns db _ u ids ∅ Hu) as [[users r] ->]. simpl. eauto.
  - unfold GetChecks, db_View, Tx_Bucket.
    destruct (ChecklistRef_Validate R); [eauto|].
    rewrite Hc, (Bucket_Get_Some _ _ _ _ Hc). simpl.
    destruct (c !! ChecklistRef_String R) as [data|]; [|eauto].
    destruct (json_Unmarshal data) as [checks [e|]]; eauto.
  - unfold AddCheck, db_Update, Tx_Bucket.
    destruct (ChecklistRef_Validate R); [eauto|].
    rewrite Hc, (Bucket_Get_Some _ _ _ _ Hc). simpl.
    destruct (match c !! ChecklistRef_String R with
              | Some data => json_Unmarshal data
              | None => (None, None)
              end) as [checks [e|]]; simpl; [eauto|].
    destruct (Checks_Add _ K U) as [m [|]]; simpl; [|eauto].
    destruct (json_Marshal (Some m)) as [out|e]; simpl; [|eauto].
    destruct (Bucket_Put_cases db _ c (ChecklistRef_String R) out Hc)
      as [(-> & _)|(e & -> & _)]; simpl; eauto.
  - unfold RemoveCheck, db_Update, Tx_Bucket.
    destruct (ChecklistRef_Validate R); [eauto|].
    rewrite Hc, (Bucket_Get_Some _ _ _ _ Hc). simpl.
    destruct (match c !! ChecklistRef_String R with
              | Some data => json_Unmarshal data
              | None => (None, None)
              end) as [checks [e|]]; simpl; [eauto|].
    destruct (Checks_Remove _ K U) as [m [|]]; simpl; [|eauto].
    destruct (json_Marshal (Some m)) as [out|e]; simpl; [|eauto].
    destruct (Bucket_Put_cases db _ c (ChecklistRef_String R) out Hc)
      as [(-> & _)|(e & -> & _)]; simpl; eauto.
Qed.

(** *** Keys *)

Lemma int_of_string_FormatInt (i : Z) :
  Z.of_int <$> NilZero.int_of_string (strconv_FormatInt i) = Some i.
Proof.
  unfold strconv_FormatInt. rewrite NilZero.isi.
  - simpl. by rewrite DecimalZ.of_to.
  - destruct i; simpl; try done. intros [= Hp].
    by apply DecimalPos.Unsigned.to_uint_nonnil in Hp.
  - destruct i; simpl; try done. intros [= Hp].
    by apply DecimalPos.Unsigned.to_uint_nonnil in Hp.
Qed.

Lemma strconv_FormatInt_inj (i j : Z) :
  strconv_FormatInt i = strconv_FormatInt j -> i = j.
Proof.
  intros Heq. pose proof (int_of_string_FormatInt i) as Hi.
  rewrite Heq, int_of_string_FormatInt in Hi. by injection Hi.
Qed.

(** X1: two users are stored under different keys of the users bucket
    whenever their identifiers differ. *)
Theorem user_keys_do_not_collide (u1 u2 : GitHubUser) :
  ID u1 <> ID u2 ->
  strconv_FormatInt (ID u1) <> strconv_FormatInt (ID u2).
Proof. intros Hne Heq. by apply Hne, strconv_FormatInt_inj. Qed.

(** *** What an operation reads *)

Lemma GetUsers_range_ext tx tx' (h : handle) ids (acc : gmap Z GitHubUser) :
  (forall name, h = Some name -> tx !! name = tx' !! name) ->
  GetUsers_range tx h ids acc = GetUsers_range tx' h ids acc.
Proof.
  intros Hh. revert acc. induction ids as [|a ids IH]; intros acc; simpl; [done|].
  assert (Bucket_Get tx h (strconv_FormatInt a) = Bucket_Get tx' h (strconv_FormatInt a))
    as ->.
  { unfold Bucket_Get. destruct h as [name|]; [|done]. by rewrite (Hh name). }
  destruct (Bucket_Get tx' h (strconv_FormatInt a)) as [|[buf|]]; simpl; [done| |done].
  destruct (json_Unmarshal buf) as [user [e|]]; [done|]. apply IH.
Qed.

(** GetUsers reads the users bucket and nothing else. *)
Lemma GetUsers_ext db db' ids :
  db !! boltBucketNameUsers = db' !! boltBucketNameUsers ->
  GetUsers db ids = GetUsers db' ids.
Proof.
  intros Hu. unfold GetUsers, db_View, Tx_Bucket. rewrite Hu.
  erewrite GetUsers_range_ext; [done|].
  intros name Hname. destruct (db' !! boltBucketNameUsers) eqn:Hu'; [|done].
  injection Hname as <-. congruence.
Qed.

(** GetChecks reads the entry of the reference in the checks bucket and
    nothing else. *)
Lemma GetChecks_ext db db' R :
  (db !! boltBucketNameChecks ≫= fun b => Some (b !! ChecklistRef_String R))
  = (db' !! boltBucketNameChecks ≫= fun b => Some (b !! ChecklistRef_String R)) ->
  GetChecks db R = GetChecks db' R.
Proof.
  intros Hc. unfold GetChecks, db_View, Tx_Bucket, Bucket_Get.
  destruct (ChecklistRef_Validate R); [done|].
  destruct (db !! boltBucketNameChecks) as [b|] eqn:Hb,
           (db' !! boltBucketNameChecks) as [b'|] eqn:Hb'; simplify_eq/=;
    rewrite ?Hb, ?Hb'; simpl; [|done]. by rewrite Hc.
Qed.

(** The users bucket after a successful Put of a user record. *)
Lemma GetUsers_range_other_users tx name b key buf ids (acc : gmap Z GitHubUser) :
  tx !! name = Some b ->
  (forall i, i ∈ ids -> strconv_FormatInt i <> key) ->
  GetUsers_range (<[name := <[key := buf]> b]> tx) (Some name) ids acc
  = GetUsers_range tx (Some name) ids acc.
Proof.
  intros Hb. revert acc. induction ids as [|a ids IH]; intros acc Hids; simpl; [done|].
  rewrite (Bucket_Get_Some _ _ _ _ Hb).
  erewrite Bucket_Get_Some by apply lookup_insert_eq.
  rewrite lookup_insert_ne by (apply not_eq_sym, Hids, list_elem_of_here). simpl.
  destruct (b !! strconv_FormatInt a) as [data|]; [|done].
  destruct (json_Unmarshal data) as [user [e|]]; [done|].
  apply IH. intros i Hi. by apply Hids, list_elem_of_further.
Qed.

(** X2: AddUser touches one key.  Whatever it returns, GetChecks answers
    as before for every reference, and GetUsers answers as before for every
    list that does not ask for the identifier of the added user. *)
Theorem AddUser_leaves_the_rest db user db' (r : option error) :
  AddUser db user = Return (db', r) ->
  (forall R, GetChecks db' R = GetChecks db R) /\
  (forall ids, ID user ∉ ids -> GetUsers db' ids = GetUsers db ids).
Proof.
  intros Hadd. apply AddUser_outcome in Hadd. destruct r as [e|].
  - by destruct Hadd as [-> _].
  - destruct Hadd as (b & buf & Hb & _ & ->). split.
    + intros R. apply GetChecks_ext. by rewrite lookup_insert_ne.
    + intros ids Hids. unfold GetUsers, db_View, Tx_Bucket.
      rewrite lookup_insert_eq, Hb.
      rewrite GetUsers_range_other_users; [done|done|].
      intros i Hi Heq. apply strconv_FormatInt_inj in Heq. by subst.
Qed.

(** X3: AddCheck and RemoveCheck touch one key.  Whatever they return,
    GetUsers answers as before for every list, and GetChecks answers as
    before for every reference with another canonical string. *)
Theorem checks_of_other_references_stay db R K U db' (r : option error) :
  AddCheck db R K U = Return (db', r) \/ RemoveCheck db R K U = Return (db', r) ->
  (forall ids, GetUsers db' ids = GetUsers db ids) /\
  (forall R', ChecklistRef_String R' <> ChecklistRef_String R ->
     GetChecks db' R' = GetChecks db R').
Proof.
  intros Hop.
  assert (db' = db \/
          exists b data,
            db !! boltBucketNameChecks = Some b /\
            db' = <[boltBucketNameChecks := <[ChecklistRef_String R := data]> b]> db)
    as [->|(b & data & Hb & ->)].
  { destruct r as [e|], Hop as [Hop|Hop].
    - left. by apply AddCheck_error in Hop as [-> _].
    - left. by apply RemoveCheck_error in Hop as [-> _].
    - apply AddCheck_success in Hop
        as (b & m & _ & Hb & _ & [[_ ->]|[_ (data & _ & ->)]]); eauto.
    - apply RemoveCheck_success in Hop
        as (b & m & _ & Hb & _ & [[_ ->]|[_ (data & _ & ->)]]); eauto. }
  - done.
  - split.
    + intros ids. apply GetUsers_ext. by rewrite lookup_insert_ne.
    + intros R' Hne. apply GetChecks_ext.
      rewrite lookup_insert_eq, Hb. simpl. by rewrite lookup_insert_ne.
Qed.

(** *** Reading users *)

(** The loop over identifiers whose records all decode. *)
Lemma GetUsers_range_found tx name b ids (acc : gmap Z GitHubUser) :
  tx !! name = Some b ->
  Forall (fun i => is_Some (stored_user b i)) ids ->
  exists users,
    GetUsers_range tx (Some name) ids acc = Return (users, None) /\
    forall i, users !! i = if decide (i ∈ ids) then stored_user b i else acc !! i.
Proof.
  intros Hb Hids. revert acc.
  induction Hids as [|a ids Ha Hids IH]; intros acc; simpl.
  - by exists acc.
  - apply stored_user_Some in Ha as (buf & user & Hbuf & Hdec & Hst).
    rewrite (Bucket_Get_Some _ _ _ _ Hb), Hbuf. simpl. rewrite Hdec.
    destruct (IH (<[a := user]> acc)) as (users & -> & Husers).
    exists users. split; [done|]. intros i. rewrite Husers.
    destruct (decide (i ∈ ids)) as [Hi|Hi].
    + by rewrite decide_True by (by apply list_elem_of_further).
    + destruct (decide (i = a)) as [->|Hne].
      * rewrite decide_True by apply list_elem_of_here. by rewrite lookup_insert_eq.
      * rewrite decide_False by (by intros [?|?]%elem_of_cons).
        by rewrite lookup_insert_ne.
Qed.

(** The loop up to the first record that does not decode. *)
Lemma GetUsers_range_undecodable tx name b pre id post buf user e
    (acc : gmap Z GitHubUser) :
  tx !! name = Some b ->
  Forall (fun i => is_Some (stored_user b i)) pre ->
  b !! strconv_FormatInt id = Some buf ->
  json_Unmarshal buf = (user, Some e) ->
  exists users,
    GetUsers_range tx (Some name) (pre ++ id :: post) acc = Return (users, Some e) /\
    forall i, users !! i = if decide (i ∈ pre) then stored_user b i else acc !! i.
Proof.
  intros Hb Hpre Hid Hdec. revert acc.
  induction Hpre as [|a pre Ha Hpre IH]; intros acc; simpl.
  - rewrite (Bucket_Get_Some _ _ _ _ Hb), Hid. simpl. rewrite Hdec. by exists acc.
  - apply stored_user_Some in Ha as (bufa & usera & Hbuf & Hdeca & Hst).
    rewrite (Bucket_Get_Some _ _ _ _ Hb), Hbuf. simpl. rewrite Hdeca.
    destruct (IH (<[a := usera]> acc)) as (users & -> & Husers).
    exists users. split; [done|]. intros i. rewrite Husers.
    destruct (decide (i ∈ pre)) as [Hi|Hi].
    + by rewrite decide_True by (by apply list_elem_of_further).
    + destruct (decide (i = a)) as [->|Hne].
      * rewrite decide_True by apply list_elem_of_here. by rewrite lookup_insert_eq.
      * rewrite decide_False by (by intros [?|?]%elem_of_cons).
        by rewrite lookup_insert_ne.
Qed.

(** X4: when every requested identifier has a record that decodes,
    GetUsers returns a nil error and the map that binds exactly the
    requested identifiers, each to its stored record. *)
Theorem GetUsers_all_found db b ids :
  db !! boltBucketNameUsers = Some b ->
  Forall (fun i => is_Some (stored_user b i)) ids ->
  exists users,
    GetUsers db ids = Return (Some users, None) /\
    forall i, users !! i = if decide (i ∈ ids) then stored_user b i else None.
Proof.
  intros Hb Hids. unfold GetUsers, db_View, Tx_Bucket. rewrite Hb.
  destruct (GetUsers_range_found db _ b ids ∅ Hb Hids) as (users & -> & Husers).
  simpl. exists users. split; [done|]. intros i. rewrite Husers.
  by rewrite lookup_empty.
Qed.

(** X5: the order of the requested identifiers and their repetitions do
    not matter to a successful GetUsers: a list with the same members gets
    the same map and a nil error. *)
Theorem GetUsers_order_is_irrelevant db ids ids' users :
  (forall i, i ∈ ids <-> i ∈ ids') ->
  GetUsers db ids = Return (Some users, None) ->
  GetUsers db ids' = Return (Some users, None).
Proof.
  intros Hsame Hget.
  destruct (db !! boltBucketNameUsers) as [b|] eqn:Hb.
  - assert (Forall (fun i => is_Some (stored_user b i)) ids) as Hids.
    { revert Hget. unfold GetUsers, db_View, Tx_Bucket. rewrite Hb.
      destruct (GetUsers_range _ _ _ _) as [|[users0 [e|]]] eqn:Hrange; simpl; [done..|].
      intros _. by eapply GetUsers_range_success. }
    assert (Forall (fun i => is_Some (stored_user b i)) ids') as Hids'.
    { rewrite Forall_forall in Hids |- *. intros i Hi. by apply Hids, Hsame. }
    revert Hget. unfold GetUsers, db_View, Tx_Bucket. rewrite Hb.
    destruct (GetUsers_range_found db _ b ids ∅ Hb Hids) as (users1 & -> & Husers1).
    destruct (GetUsers_range_found db _ b ids' ∅ Hb Hids') as (users2 & -> & Husers2).
    simpl. intros [= <-]. do 3 f_equal. apply map_eq. intros i.
    rewrite Husers1, Husers2.
    destruct (decide (i ∈ ids)) as [Hi|Hi].
    + by rewrite decide_True by (by apply Hsame).
    + by rewrite decide_False by (by rewrite <- Hsame).
  - destruct ids as [|a ids].
    + destruct ids' as [|a' ids']; [done|].
      exfalso. eapply elem_of_nil, Hsame, list_elem_of_here.
    + revert Hget. unfold GetUsers, db_View, Tx_Bucket. rewrite Hb. done.
Qed.

(** X6: when the first record that is missing or broken is one whose
    bytes do not decode, GetUsers returns the decoding error wrapped as
    GetUsers, together with the map of the records before it. *)
Theorem GetUsers_fails_at_first_undecodable db b pre id post buf user e :
  db !! boltBucketNameUsers = Some b ->
  Forall (fun i => is_Some (stored_user b i)) pre ->
  b !! strconv_FormatInt id = Some buf ->
  json_Unmarshal buf = (user, Some e) ->
  exists users,
    GetUsers db (pre ++ id :: post) = Return (Some users, Some (Wrap e "GetUsers")) /\
    forall i, users !! i = if decide (i ∈ pre) then stored_user b i else None.
Proof.
  intros Hb Hpre Hid Hdec. unfold GetUsers, db_View, Tx_Bucket. rewrite Hb.
  destruct (GetUsers_range_undecodable db _ b pre id post buf user e ∅ Hb Hpre Hid Hdec)
    as (users & -> & Husers).
  simpl. exists users. split; [done|]. intros i. rewrite Husers.
  by rewrite lookup_empty.
Qed.

(** X7: with a codec that reads back what it writes, a user added by a
    successful AddUser is the user GetUsers returns for its identifier,
    whatever was stored under that identifier before. *)
Theorem AddUser_then_GetUsers `{!JSONLaws GitHubUser} db user db' :
  AddUser db user = Return (db', None) ->
  GetUsers db' [ID user] = Return (Some {[ID user := user]}, None).
Proof.
  intros (b & buf & Hb & Hm & ->)%AddUser_outcome.
  unfold GetUsers, db_View, Tx_Bucket. rewrite lookup_insert_eq. simpl.
  erewrite Bucket_Get_Some by apply lookup_insert_eq.
  rewrite lookup_insert_eq. simpl.
  by rewrite (unmarshal_marshal _ _ Hm).
Qed.

(** *** Reading and writing checks *)

(** X8: when the bytes stored for a valid reference do not decode,
    GetChecks returns the decoding error wrapped as GetChecks, together
    with whatever the decoder left in the check set. *)
Theorem GetChecks_corrupt_entry db b R data checks e :
  ChecklistRef_Validate R = None ->
  db !! boltBucketNameChecks = Some b ->
  b !! ChecklistRef_String R = Some data ->
  json_Unmarshal data = (checks, Some e) ->
  GetChecks db R = Return (checks, Some (Wrap e "GetChecks")).
Proof.
  intros Hv Hb Hk Hd. unfold GetChecks, db_View.
  rewrite Hv, (Tx_Bucket_Some _ _ _ Hb), (Bucket_Get_Some _ _ _ _ Hb), Hk.
  simpl. by rewrite Hd.
Qed.

(** X9: with a codec that reads back what it writes, a successful AddCheck
    leaves for the reference exactly the check set that Checks.Add makes of
    the one stored before, and a successful RemoveCheck the one that
    Checks.Remove makes of it. *)
Theorem write_stores_the_mutated_check_set
    `{!JSONLaws (option (gmap string (gset Z)))} db R K U db' :
  (AddCheck db R K U = Return (db', None) ->
   exists m, stored_checks db R = Some m /\
             stored_checks db' R = Some (Checks_Add m K U).1) /\
  (RemoveCheck db R K U = Return (db', None) ->
   exists m, stored_checks db R = Some m /\
             stored_checks db' R = Some (Checks_Remove m K U).1).
Proof.
  split.
  - intros (b & m & _ & Hb & Hm & [[Hin ->]|[Hin (data & Hd & ->)]])%AddCheck_success;
      exists m; (split; [done|]); unfold Checks_Add.
    + by rewrite decide_True.
    + rewrite decide_False by done. by apply stored_checks_written.
  - intros (b & m & _ & Hb & Hm & [[Hin ->]|[Hin (data & Hd & ->)]])%RemoveCheck_success;
      exists m; (split; [done|]); unfold Checks_Remove.
    + by rewrite decide_False.
    + rewrite decide_True by done. by apply stored_checks_written.
Qed.

(** X14: with a codec that reads back what it writes, after a successful
    RemoveCheck(R,K,U), from whatever state, GetChecks(R) succeeds with a
    check set in which item K's set does not contain U, and a second
    RemoveCheck(R,K,U) succeeds and leaves the database as it is. *)
Theorem RemoveCheck_settles
    `{!JSONLaws (option (gmap string (gset Z)))} db R K U db1 :
  RemoveCheck db R K U = Return (db1, None) ->
  (exists checks,
     GetChecks db1 R = Return (checks, None) /\ ID U ∉ checked_by checks K) /\
  RemoveCheck db1 R K U = Return (db1, None).
Proof.
  intros Hrem.
  assert (exists m, ChecklistRef_Validate R = None /\ stored_checks db1 R = Some m /\
                    ID U ∉ default ∅ (m !! K)) as (m1 & Hv & Hm1 & Hout1).
  { apply RemoveCheck_success in Hrem
      as (b & m & Hv & Hb & Hm & [[Hout ->]|[Hin (data & Hd & ->)]]).
    - eauto.
    - eexists. split; [done|]. split; [by apply stored_checks_written|].
      rewrite lookup_insert_eq. simpl.
      rewrite elem_of_difference, elem_of_singleton. tauto. }
  split.
  - destruct (GetChecks_stored _ _ _ Hv Hm1) as (checks & Hget & <-).
    exists checks. by rewrite checked_by_default.
  - rewrite <- Hv. by eapply RemoveCheck_absent.
Qed.

(** X15: a successful AddCheck(R,K,U) or RemoveCheck(R,K,U) changes at
    most the membership of U in item K: in the check set stored for R every
    other user of K and every user of every other item is checked after the
    call exactly when it was before. *)
Theorem write_changes_one_membership
    `{!JSONLaws (option (gmap string (gset Z)))} db R K U db' :
  AddCheck db R K U = Return (db', None) \/ RemoveCheck db R K U = Return (db', None) ->
  exists m m',
    stored_checks db R = Some m /\
    stored_checks db' R = Some m' /\
    forall K' (V : Z), K' <> K \/ V <> ID U ->
      V ∈ default ∅ (m' !! K') <-> V ∈ default ∅ (m !! K').
Proof.
  intros [Hop|Hop].
  - apply AddCheck_success in Hop
      as (b & m & _ & Hb & Hm & [[Hin ->]|[Hin (data & Hd & ->)]]).
    + by exists m, m.
    + eexists m, _. split; [done|]. split; [by apply stored_checks_written|].
      intros K' V Hother. destruct (decide (K' = K)) as [->|Hne].
      * rewrite lookup_insert_eq. simpl. rewrite elem_of_union, elem_of_singleton.
        destruct Hother; [done|tauto].
      * by rewrite lookup_insert_ne.
  - apply RemoveCheck_success in Hop
      as (b & m & _ & Hb & Hm & [[Hin ->]|[Hin (data & Hd & ->)]]).
    + by exists m, m.
    + eexists m, _. split; [done|]. split; [by apply stored_checks_written|].
      intros K' V Hother. destruct (decide (K' = K)) as [->|Hne].
      * rewrite lookup_insert_eq. simpl. rewrite elem_of_difference, elem_of_singleton.
        destruct Hother; [done|tauto].
      * by rewrite lookup_insert_ne.
Qed.

(** *** Buckets *)

(** X10: without its bucket an operation panics as soon as it reaches
    storage: GetChecks, AddCheck and RemoveCheck with a valid reference on
    a database with no checks bucket, GetUsers with a non-empty list on a
    database with no users bucket, and AddUser there once the record is
    encoded. *)
Theorem missing_bucket_panics db :
  (db !! boltBucketNameChecks = None ->
   forall R K U, ChecklistRef_Validate R = None ->
     GetChecks db R = Panic /\ AddCheck db R K U = Panic /\ RemoveCheck db R K U = Panic) /\
  (db !! boltBucketNameUsers = None ->
   (forall id ids, GetUsers db (id :: ids) = Panic) /\
   (forall user buf, json_Marshal user = inl buf -> AddUser db user = Panic)).
Proof.
  split.
  - intros Hc R K U Hv.
    unfold GetChecks, AddCheck, RemoveCheck, db_Update, db_View, Tx_Bucket.
    by rewrite Hv, Hc.
  - intros Hu. split.
    + intros id ids. unfold GetUsers, db_View, Tx_Bucket. by rewrite Hu.
    + intros user buf Hm. unfold AddUser, db_Update, Tx_Bucket. by rewrite Hu, Hm.
Qed.

(** X11: the database NewBoltCore returns is the opened file with the
    buckets users and checks added where they were missing: every bucket
    of the file is kept with its content, the two buckets exist, and a file
    that already has both is returned as it is. *)
Theorem NewBoltCore_keeps_the_file (bolt_Open : string -> DB + error) datasource db :
  NewBoltCore bolt_Open datasource = Return (inl db) ->
  exists path file,
    slice_from datasource 5 = Return path /\
    bolt_Open path = inl file /\
    has_buckets db /\
    (forall name b, file !! name = Some b -> db !! name = Some b) /\
    (forall name, file !! name = None ->
       db !! name = if decide (name = boltBucketNameUsers \/ name = boltBucketNameChecks)
                    then Some ∅ else None) /\
    (has_buckets file -> db = file).
Proof.
  destruct (slice_from datasource 5) as [|path] eqn:Hpath.
  { unfold NewBoltCore. change (String.length "bolt:") with 5%nat. by rewrite Hpath. }
  rewrite (NewBoltCore_opened _ _ _ Hpath).
  destruct (bolt_Open path) as [file|err] eqn:Hopen; intros [= <-].
  exists path, file. split; [done|]. split; [done|].
  split; [apply bootstrap_has_buckets|].
  unfold bootstrap, Tx_CreateBucketIfNotExists.
  destruct (file !! boltBucketNameUsers) as [u|] eqn:Hu; simpl.
  - destruct (file !! boltBucketNameChecks) as [c|] eqn:Hc; simpl.
    + repeat apply conj; [done| |done].
      intros name Hname. rewrite Hname, decide_False; [done|]. intros [->| ->]; congruence.
    + repeat apply conj.
      * intros name b Hname. rewrite lookup_insert_ne; [done|congruence].
      * intros name Hname. rewrite lookup_insert. case_decide as Heq.
        -- subst. rewrite decide_True; eauto.
        -- rewrite Hname. rewrite decide_False; [done|]. intros [->| ->]; congruence.
      * intros [_ [c Hc']]. congruence.
  - rewrite lookup_insert_ne by done.
    destruct (file !! boltBucketNameChecks) as [c|] eqn:Hc; simpl.
    + repeat apply conj.
      * intros name b Hname. rewrite lookup_insert_ne; [done|congruence].
      * intros name Hname. rewrite lookup_insert. case_decide as Heq.
        -- subst. rewrite decide_True; eauto.
        -- rewrite Hname. rewrite decide_False; [done|]. intros [->| ->]; congruence.
      * intros [[u Hu'] _]. congruence.
    + repeat apply conj.
      * intros name b Hname. rewrite !lookup_insert_ne; [done|congruence..].
      * intros name Hname. rewrite !lookup_insert, Hname.
        repeat case_decide; try done; exfalso; intuition congruence.
      * intros [[u Hu'] _]. congruence.
Qed.

End Properties.

(** * The codec [GoJSON] reads back what it writes *)

Module GoJSONFacts.
Import GoJSON.

Lemma append_cons (a : ascii) (s r : string) :
  String a s +:+ r = String a (s +:+ r).
Proof. reflexivity. Qed.

Lemma append_nil_r (s : string) : s +:+ EmptyString = s.
Proof. induction s as [|a s IH]; [done|]. by rewrite append_cons, IH. Qed.

Lemma append_assoc (s1 s2 s3 : string) :
  (s1 +:+ s2) +:+ s3 = s1 +:+ (s2 +:+ s3).
Proof. induction s1 as [|a s1 IH]; [done|]. by rewrite !append_cons, IH. Qed.

Lemma length_append (s1 s2 : string) :
  String.length (s1 +:+ s2) = (String.length s1 + String.length s2)%nat.
Proof. induction s1 as [|a s1 IH]; [done|]. rewrite append_cons. simpl. by rewrite IH. Qed.

(** **** String literals *)

Lemma unquote_escape (s r : string) :
  unquote (escape s +:+ String dquote r) = Some (s, r).
Proof.
  induction s as [|a s IH]; [done|].
  change (escape (String a s))
    with (if Ascii.eqb a dquote || Ascii.eqb a backslash
          then String backslash (String a (escape s))
          else String a (escape s)).
  destruct (Ascii.eqb a dquote) eqn:Hq; [|destruct (Ascii.eqb a backslash) eqn:Hb];
    cbv [orb]; rewrite !append_cons; simpl; rewrite ?Hq, ?Hb, IH; done.
Qed.

(** **** Numbers *)

(** No character of [s] ends a number. *)
Fixpoint plain (s : string) : bool :=
  match s with
  | EmptyString => true
  | String c s' => negb (Ascii.eqb c "]") && negb (Ascii.eqb c ",") && plain s'
  end.

Lemma plain_digits (d : Decimal.uint) : plain (NilEmpty.string_of_uint d) = true.
Proof. induction d; simpl; done. Qed.

Lemma plain_number (z : Z) : plain (number z) = true.
Proof.
  unfold number, strconv_FormatInt.
  destruct (Z.to_int z) as [d|d]; simpl; destruct d; simpl; auto using plain_digits.
Qed.

Lemma read_number_number (z : Z) : read_number (number z) = Some z.
Proof.
  unfold read_number, number, strconv_FormatInt.
  rewrite NilZero.isi.
  - simpl. by rewrite DecimalZ.of_to.
  - destruct z; simpl; try done. intros [= Hp]. by apply DecimalPos.Unsigned.to_uint_nonnil in Hp.
  - destruct z; simpl; try done. intros [= Hp]. by apply DecimalPos.Unsigned.to_uint_nonnil in Hp.
Qed.

Lemma read_numbers_plain (s r cur : string) (first : bool) :
  plain s = true ->
  read_numbers (s +:+ r) cur first = read_numbers r (cur +:+ s) first.
Proof.
  revert cur. induction s as [|a s IH]; intros cur Hs.
  - by rewrite append_nil_r.
  - simpl in Hs. apply andb_prop in Hs as [[Ha Hb]%andb_prop Hs].
    apply negb_true_iff in Ha, Hb.
    rewrite append_cons. simpl. rewrite Ha, Hb, IH by done.
    by rewrite append_assoc.
Qed.

Lemma read_numbers_numbers (l : list Z) (r : string) (first : bool) :
  l <> [] \/ first = true ->
  read_numbers (numbers l +:+ String "]" r) EmptyString first = Some (l, r).
Proof.
  revert first. induction l as [|z l IH]; intros first Hfirst.
  - destruct Hfirst as [?| ->]; done.
  - destruct l as [|z' l].
    + simpl numbers. rewrite read_numbers_plain by apply plain_number.
      change (EmptyString +:+ number z) with (number z). simpl.
      pose proof (strconv_FormatInt_nonempty z) as Hne. fold (number z) in Hne.
      destruct (number z) eqn:Hz; [done|]. rewrite <- Hz.
      by rewrite read_number_number.
    + change (numbers (z :: z' :: l)) with (number z +:+ String "," (numbers (z' :: l))).
      rewrite append_assoc, append_cons.
      rewrite read_numbers_plain by apply plain_number.
      change (EmptyString +:+ number z) with (number z). simpl.
      rewrite read_number_number. simpl.
      rewrite IH by (by left). done.
Qed.

(** **** Objects *)

Lemma member_append (e : string * list Z) (r : string) :
  member e +:+ r
  = String dquote (escape e.1 +:+
      String dquote (String ":" (String "[" (numbers e.2 +:+ String "]" r)))).
Proof.
  unfold member, quote, array.
  by rewrite !append_cons, !append_assoc, !append_cons, !append_assoc.
Qed.

Lemma read_members_members (es : list (string * list Z)) (fuel : nat) (r : string) :
  es <> [] ->
  (length es <= fuel)%nat ->
  read_members fuel (members es +:+ String "}" r) = Some (es, r).
Proof.
  revert fuel. induction es as [|[k v] es IH]; intros fuel Hne Hfuel; [done|].
  destruct fuel as [|fuel]; [simpl in Hfuel; lia|].
  destruct es as [|e es].
  - simpl members. rewrite member_append. simpl.
    rewrite unquote_escape. simpl.
    rewrite read_numbers_numbers by (by right). done.
  - change (members ((k, v) :: e :: es))
      with (member (k, v) +:+ String "," (members (e :: es))).
    rewrite append_assoc, append_cons, member_append. simpl.
    rewrite unquote_escape. simpl.
    rewrite read_numbers_numbers by (by right). simpl.
    rewrite IH; [done|done|]. simpl in *. lia.
Qed.

Lemma length_members (es : list (string * list Z)) :
  (length es <= String.length (members es))%nat.
Proof.
  induction es as [|e es IH]; [done|].
  destruct es as [|e' es].
  - simpl. unfold member, quote. simpl. lia.
  - change (members (e :: e' :: es)) with (member e +:+ String "," (members (e' :: es))).
    rewrite length_append. simpl in *. lia.
Qed.

Lemma Checks_of_entries_entries (m : gmap string (gset Z)) :
  Checks_of_entries (Checks_entries m) = m.
Proof.
  unfold Checks_of_entries, Checks_entries.
  rewrite <- fmap_reverse, <- list_fmap_compose.
  erewrite (list_fmap_ext _ id);
    [|intros i [k s] _; simpl; by rewrite list_to_set_elements_L].
  rewrite list_fmap_id.
  rewrite <- (list_to_map_to_list m) at 2.
  apply list_to_map_proper.
  - rewrite reverse_Permutation. apply NoDup_fst_map_to_list.
  - apply reverse_Permutation.
Qed.

(** The round trip of the codec, for every check set. *)
Lemma Unmarshal_Marshal_Checks (c : Checks) (data : bytes) :
  Marshal_Checks c = inl data -> Unmarshal_Checks data = (c, None).
Proof.
  destruct c as [m|]; simpl; intros [= <-]; [|done].
  destruct (Checks_entries m) as [|e es] eqn:Hes.
  - unfold Checks_entries in Hes. apply fmap_nil_inv in Hes.
    by apply map_to_list_empty_iff in Hes as ->.
  - set (s := members (e :: es) +:+ String "}" EmptyString).
    assert (exists s', s = String dquote s') as [s' Hs].
    { unfold s. destruct es as [|e' es].
      - simpl members. rewrite member_append. eauto.
      - change (members (e :: e' :: es))
          with (member e +:+ String "," (members (e' :: es))).
        rewrite append_assoc, member_append. eauto. }
    assert (read_members (String.length s) s = Some (e :: es, EmptyString)) as Hread.
    { apply read_members_members; [done|]. unfold s. rewrite length_append.
      pose proof (length_members (e :: es)). lia. }
    transitivity
      (match read_members (String.length s) s with
       | Some (es, EmptyString) => (Some (Checks_of_entries es), None)
       | _ => (None : Checks, Some SyntaxError)
       end).
    { rewrite Hs. reflexivity. }
    rewrite Hread, <- Hes. by rewrite Checks_of_entries_entries.
Qed.

#[export] Instance JSONLaws_Checks : JSONLaws (option (gmap string (gset Z))).
Proof. split. exact Unmarshal_Marshal_Checks. Qed.

(** **** Users *)

Lemma expect_append (p s : string) : expect p (p +:+ s) = Some s.
Proof.
  induction p as [|a p IH]; [by destruct s|].
  rewrite append_cons. simpl. by rewrite Ascii.eqb_refl.
Qed.

Lemma read_field_number_plain (s r cur : string) :
  plain s = true ->
  read_field_number (s +:+ r) cur = read_field_number r (cur +:+ s).
Proof.
  revert cur. induction s as [|a s IH]; intros cur Hs.
  - by rewrite append_nil_r.
  - simpl in Hs. apply andb_prop in Hs as [[Ha Hb]%andb_prop Hs].
    apply negb_true_iff in Hb.
    rewrite append_cons. simpl. rewrite Hb, IH by done.
    by rewrite append_assoc.
Qed.

Lemma read_User_Marshal (u : GitHubUser) (data : bytes) :
  Marshal_User u = inl data -> read_User data = Some u.
Proof.
  destruct u as [id login avatar]. unfold Marshal_User. simpl. intros [= <-].
  unfold read_User.
  replace (String "{" (quote "ID" +:+ String ":" (number id) +:+
             String "," (quote "Login" +:+ String ":" (quote login)) +:+
             String "," (quote "AvatarURL" +:+ String ":" (quote avatar)) +:+
             String "}" EmptyString))
    with (String "{" (quote "ID" +:+ String ":" EmptyString) +:+
          (number id +:+ String ","
             ((quote "Login" +:+ String ":" (String dquote EmptyString)) +:+
              (escape login +:+ String dquote
                 (String "," (quote "AvatarURL" +:+ String ":" (String dquote EmptyString)) +:+
                  (escape avatar +:+ String dquote (String "}" EmptyString)))))))
    by (unfold quote; by rewrite ?append_cons, ?append_assoc, ?append_cons, ?append_assoc).
  rewrite expect_append. cbv beta iota delta [mbind option_bind].
  rewrite read_field_number_plain by apply plain_number.
  change (EmptyString +:+ number id) with (number id).
  change (read_field_number (String "," ?r) ?cur)
    with (z ← read_number cur; Some (z, r)).
  rewrite read_number_number. cbv beta iota delta [mbind option_bind].
  rewrite expect_append. cbv beta iota delta [mbind option_bind].
  rewrite unquote_escape. cbv beta iota delta [mbind option_bind].
  rewrite expect_append. cbv beta iota delta [mbind option_bind].
  rewrite unquote_escape. cbv beta iota delta [mbind option_bind]. done.
Qed.

(** The round trip of the codec, for every user. *)
Lemma Unmarshal_Marshal_User (u : GitHubUser) (data : bytes) :
  Marshal_User u = inl data -> Unmarshal_User data = (u, None).
Proof. intros Hm. unfold Unmarshal_User. by rewrite (read_User_Marshal u data Hm). Qed.

#[export] Instance JSONLaws_User : JSONLaws GitHubUser.
Proof. split. exact Unmarshal_Marshal_User. Qed.

End GoJSONFacts.

(** * The theorems on the concrete repository *)

Import GoJSON GoJSONFacts Sample.

Lemma GetUsers_fails_at_first_missing_witness :
  exists users,
    GetUsers db_users [1; 2; 3]
    = Return (Some users, Some (Wrap (NotFound 2) "GetUsers")) /\
    forall i, users !! i = if decide (i ∈ [1]) then stored_user users_bucket i else None.
Proof.
  assert (db_users !! boltBucketNameUsers = Some users_bucket) as Hb
    by (vm_compute; reflexivity).
  apply (proj2 (GetUsers_fails_at_first_missing db_users users_bucket Hb) [1] 2 [3]).
  - repeat constructor. vm_compute. eauto.
  - vm_compute. reflexivity.
Defined.

(** C1, the claim as stated fails: with users 1 and 3 stored and user 2
    missing, GetUsers [1;2;3] returns, next to the not-found error, a map
    that is not empty: it holds the record of user 1. *)
Lemma GetUsers_returns_partial_mapping :
  GetUsers db_users [1; 2; 3]
  = Return (Some {[1 := alice]}, Some (Wrap (NotFound 2) "GetUsers")) /\
  ({[1 := alice]} : gmap Z GitHubUser) <> ∅.
Proof.
  split; [vm_compute; reflexivity|].
  intros Heq. apply (f_equal (fun m : gmap Z GitHubUser => m !! 1)) in Heq.
  by rewrite lookup_singleton_eq, lookup_empty in Heq.
Qed.



Lemma check_round_trip_witness :
  exists db1 db2 checks1 checks2,
    AddCheck db_new pr1 "item" alice = Return (db1, None) /\
    GetChecks db1 pr1 = Return (checks1, None) /\
    ID alice ∈ checked_by checks1 "item" /\
    RemoveCheck db1 pr1 "item" alice = Return (db2, None) /\
    GetChecks db2 pr1 = Return (checks2, None) /\
    ID alice ∉ checked_by checks2 "item".
Proof.
  apply (check_round_trip db_new ∅ pr1 "item" alice ∅ data_checked data_unchecked).
  - vm_compute. reflexivity.
  - vm_compute. reflexivity.
  - vm_compute. reflexivity.
  - split; vm_compute; reflexivity.
  - repeat split; vm_compute; discriminate.
  - split; vm_compute; reflexivity.
  - repeat split; vm_compute; discriminate.
Defined.

(** C3, the claim as stated fails: under the coercion of encoding/json,
    after a successful AddCheck with the item key of the single byte 0xFF,
    GetChecks succeeds with a check set that has the user under U+FFFD and
    nobody under the item key that was checked. *)
Lemma GetChecks_misses_coerced_key :
  AddCheck (JSON_Checks := EncodingJSON.JSON_Checks) db_new pr1 EncodingJSON.key_ff alice
  = Return (EncodingJSON.db_once, None) /\
  GetChecks (JSON_Checks := EncodingJSON.JSON_Checks) EncodingJSON.db_once pr1
  = Return (Some {[EncodingJSON.replacement_bytes := {[1]}]}, None) /\
  ID alice ∉ checked_by (Some {[EncodingJSON.replacement_bytes := {[1]}]}) EncodingJSON.key_ff.
Proof.
  split; [vm_compute; reflexivity|]. split; [vm_compute; reflexivity|].
  apply (bool_decide_unpack _). vm_compute. exact I.
Qed.

Lemma GetChecks_fresh_reference_witness :
  GetChecks db_new pr1 = Return (None, None) /\
  forall K, checked_by None K = ∅.
Proof.
  apply (GetChecks_fresh_reference db_new ∅ pr1).
  - vm_compute. reflexivity.
  - vm_compute. reflexivity.
  - vm_compute. reflexivity.
Defined.

Lemma invalid_reference_fails_before_storage_witness :
  GetChecks (∅ : DB) no_stage = Return (None, Some (Other "stage is required")) /\
  AddCheck (∅ : DB) no_stage "item" alice = Return (∅, Some (Other "stage is required")) /\
  RemoveCheck (∅ : DB) no_stage "item" alice = Return (∅, Some (Other "stage is required")).
Proof.
  apply (invalid_reference_fails_before_storage ∅ no_stage "item" alice).
  vm_compute. reflexivity.
Defined.

Lemma corrupt_entry_aborts_write_witness :
  AddCheck db_corrupt pr1 "item" alice = Return (db_corrupt, Some SyntaxError) /\
  RemoveCheck db_corrupt pr1 "item" alice = Return (db_corrupt, Some SyntaxError).
Proof.
  apply (corrupt_entry_aborts_write db_corrupt {[String_ pr1 := "{"]} pr1 "item" alice
           "{" None SyntaxError).
  - vm_compute. reflexivity.
  - vm_compute. reflexivity.
  - vm_compute. reflexivity.
  - vm_compute. reflexivity.
Defined.

Lemma errors_reach_the_caller_witness :
  (exists e0 b i,
     Wrap (NotFound 2) "GetUsers" = Wrap e0 "GetUsers" /\
     db_users !! boltBucketNameUsers = Some b /\ i ∈ [1; 2; 3] /\
     ((b !! strconv_FormatInt i = None /\ e0 = NotFound i) \/
      (exists buf (user : GitHubUser),
         b !! strconv_FormatInt i = Some buf /\ json_Unmarshal buf = (user, Some e0)))) /\
  Forall (fun i => is_Some (stored_user users_bucket i)) [1; 3] /\
  (exists b m,
     ChecklistRef_Validate pr1 = None /\
     db_new !! boltBucketNameChecks = Some b /\
     stored_checks db_new pr1 = Some m /\
     (((ID alice ∈ default ∅ (m !! "item")) /\ db_checked = db_new) \/
      ((ID alice ∉ default ∅ (m !! "item")) /\
       exists data,
         json_Marshal (Some (Checks_Add m "item" alice).1) = inl data /\
         Put_accepts (ChecklistRef_String pr1) data /\
         db_checked
         = <[boltBucketNameChecks := <[ChecklistRef_String pr1 := data]> b]> db_new))) /\
  (db_corrupt = db_corrupt /\
   (ChecklistRef_Validate pr1 = Some SyntaxError \/
    (ChecklistRef_Validate pr1 = None /\
     ((exists b data (checks : Checks),
         db_corrupt !! boltBucketNameChecks = Some b /\
         b !! ChecklistRef_String pr1 = Some data /\
         json_Unmarshal data = (checks, Some SyntaxError)) \/
      (exists m,
         stored_checks db_corrupt pr1 = Some m /\
         (ID alice ∈ default ∅ (m !! "item")) /\
         (json_Marshal (Some (Checks_Remove m "item" alice).1) = inr SyntaxError \/
          exists data,
            json_Marshal (Some (Checks_Remove m "item" alice).1) = inl data /\
            ~ Put_accepts (ChecklistRef_String pr1) data /\ Put_error SyntaxError)))))).
Proof.
  pose proof (errors_reach_the_caller db_users) as (Husers_err & Husers_ok & _).
  pose proof (errors_reach_the_caller db_new) as (_ & _ & _ & _ & _ & _ & _ & Hadd_ok & _).
  pose proof (errors_reach_the_caller db_corrupt)
    as (_ & _ & _ & _ & _ & _ & _ & _ & Hrem_err & _).
  split; [|split; [|split]].
  - apply (Husers_err [1; 2; 3] (Some {[1 := alice]})).
    vm_compute. reflexivity.
  - apply (Husers_ok [1; 3] (Some (<[3 := carol]> {[1 := alice]})) users_bucket).
    + vm_compute. reflexivity.
    + vm_compute. reflexivity.
  - apply (Hadd_ok pr1 "item" alice db_checked).
    vm_compute. reflexivity.
  - apply (Hrem_err pr1 "item" alice db_corrupt SyntaxError).
    vm_compute. reflexivity.
Defined.

(** C7, the claim as stated fails: on a store whose entry for the
    reference does not decode, AddCheck returns the decoding error of the
    codec as it is, with no wrap by any operation name, and its message
    names neither the operation nor the key. *)
Lemma AddCheck_error_is_not_wrapped :
  AddCheck db_corrupt pr1 "item" alice
  = Return (db_corrupt, Some (Other "json: syntax error")) /\
  (forall op, wrapped_by op (Other "json: syntax error") = false) /\
  Error (Other "json: syntax error") = "json: syntax error".
Proof. split; [vm_compute; reflexivity|]. split; [intros op|]; reflexivity. Qed.

Lemma NewBoltCore_prefix_unchecked_witness :
  NewBoltCore open_new "bolt" = Panic /\
  NewBoltCore open_new ("file:" +:+ "/tmp/prchecklist.db") = Return (inl (bootstrap ∅)).
Proof.
  split.
  - apply (proj1 (NewBoltCore_prefix_unchecked open_new) "bolt"). simpl. lia.
  - apply (proj2 (NewBoltCore_prefix_unchecked open_new) "file:" "/tmp/prchecklist.db").
    reflexivity.
Defined.

Lemma AddUser_any_identifier_witness :
  (exists buf,
     AddUser db_new ghost = Return (<[boltBucketNameUsers := {["0" := buf]}]> db_new, None)) /\
  (exists buf,
     AddUser db_new minus7 = Return (<[boltBucketNameUsers := {["-7" := buf]}]> db_new, None)).
Proof.
  split.
  - eexists. apply (AddUser_any_identifier db_new ∅ ghost).
    + vm_compute. reflexivity.
    + simpl. lia.
    + vm_compute. reflexivity.
    + vm_compute. discriminate.
  - eexists. apply (AddUser_any_identifier db_new ∅ minus7).
    + vm_compute. reflexivity.
    + simpl. lia.
    + vm_compute. reflexivity.
    + vm_compute. discriminate.
Defined.

Lemma user_keys_do_not_collide_witness :
  strconv_FormatInt (ID alice) <> strconv_FormatInt (ID bob).
Proof. apply (user_keys_do_not_collide alice bob). simpl. lia. Defined.

Lemma AddUser_leaves_the_rest_witness :
  (forall R : ChecklistRef, GetChecks db_users_bob R = GetChecks db_users R) /\
  (forall ids, ID bob ∉ ids -> GetUsers db_users_bob ids = GetUsers db_users ids).
Proof.
  apply (AddUser_leaves_the_rest db_users bob db_users_bob None).
  vm_compute. reflexivity.
Defined.

Lemma checks_of_other_references_stay_witness :
  (forall ids, GetUsers db_checked ids = GetUsers db_new ids) /\
  (forall R' : ChecklistRef, ChecklistRef_String R' <> ChecklistRef_String pr1 ->
     GetChecks db_checked R' = GetChecks db_new R').
Proof.
  apply (checks_of_other_references_stay db_new pr1 "item" alice db_checked None).
  left. vm_compute. reflexivity.
Defined.

Lemma GetUsers_all_found_witness :
  exists users,
    GetUsers db_users [1; 3; 1] = Return (Some users, None) /\
    forall i, users !! i = if decide (i ∈ [1; 3; 1]) then stored_user users_bucket i else None.
Proof.
  apply (GetUsers_all_found db_users users_bucket [1; 3; 1]).
  - vm_compute. reflexivity.
  - repeat constructor; vm_compute; eauto.
Defined.

Lemma GetUsers_order_is_irrelevant_witness :
  GetUsers db_users [3; 1; 3] = Return (Some (<[3 := carol]> {[1 := alice]}), None).
Proof.
  apply (GetUsers_order_is_irrelevant db_users [1; 3] [3; 1; 3]).
  - intros i. rewrite !elem_of_cons, !elem_of_nil. tauto.
  - vm_compute. reflexivity.
Defined.

Lemma GetUsers_fails_at_first_undecodable_witness :
  exists users,
    GetUsers db_broken_user [1; 2; 3]
    = Return (Some users, Some (Wrap SyntaxError "GetUsers")) /\
    forall i, users !! i = if decide (i ∈ [1]) then stored_user broken_bucket i else None.
Proof.
  apply (GetUsers_fails_at_first_undecodable db_broken_user broken_bucket [1] 2 [3]
           "{" zero_User SyntaxError).
  - vm_compute. reflexivity.
  - repeat constructor; vm_compute; eauto.
  - vm_compute. reflexivity.
  - vm_compute. reflexivity.
Defined.

Lemma AddUser_then_GetUsers_witness :
  GetUsers db_alice [ID alice] = Return (Some {[ID alice := alice]}, None).
Proof.
  apply (AddUser_then_GetUsers db_new alice db_alice).
  vm_compute. reflexivity.
Defined.

Lemma GetChecks_corrupt_entry_witness :
  GetChecks db_corrupt pr1 = Return (None, Some (Wrap SyntaxError "GetChecks")).
Proof.
  apply (GetChecks_corrupt_entry db_corrupt {[String_ pr1 := "{"]} pr1 "{" None SyntaxError).
  - vm_compute. reflexivity.
  - vm_compute. reflexivity.
  - vm_compute. reflexivity.
  - vm_compute. reflexivity.
Defined.

Lemma write_stores_the_mutated_check_set_witness :
  (exists m, stored_checks db_new pr1 = Some m /\
             stored_checks db_checked pr1 = Some (Checks_Add m "item" alice).1) /\
  (exists m, stored_checks db_checked pr1 = Some m /\
             stored_checks db_unchecked pr1 = Some (Checks_Remove m "item" alice).1).
Proof.
  split.
  - apply (proj1 (write_stores_the_mutated_check_set db_new pr1 "item" alice db_checked)).
    vm_compute. reflexivity.
  - apply (proj2 (write_stores_the_mutated_check_set db_checked pr1 "item" alice db_unchecked)).
    vm_compute. reflexivity.
Defined.

Lemma missing_bucket_panics_witness :
  (GetChecks (∅ : DB) pr1 = Panic /\
   AddCheck (∅ : DB) pr1 "item" alice = Panic /\
   RemoveCheck (∅ : DB) pr1 "item" alice = Panic) /\
  (forall id ids, GetUsers (∅ : DB) (id :: ids) = Panic) /\
  (forall user buf, json_Marshal user = inl buf -> AddUser (∅ : DB) user = Panic).
Proof.
  split.
  - apply (proj1 (missing_bucket_panics ∅)); vm_compute; reflexivity.
  - apply (proj2 (missing_bucket_panics ∅)). vm_compute. reflexivity.
Defined.

Lemma NewBoltCore_keeps_the_file_witness :
  exists path file,
    slice_from "bolt:/tmp/prchecklist.db" 5 = Return path /\
    open_users path = inl file /\
    has_buckets db_users /\
    (forall name b, file !! name = Some b -> db_users !! name = Some b) /\
    (forall name, file !! name = None ->
       db_users !! name
       = if decide (name = boltBucketNameUsers \/ name = boltBucketNameChecks)
         then Some ∅ else None) /\
    (has_buckets file -> db_users = file).
Proof.
  apply (NewBoltCore_keeps_the_file open_users "bolt:/tmp/prchecklist.db" db_users).
  vm_compute. reflexivity.
Defined.

Lemma writes_keep_buckets_witness : has_buckets db_checked.
Proof.
  apply (writes_keep_buckets db_new db_checked None pr1 "item" alice alice).
  - split; exists ∅; vm_compute; reflexivity.
  - right. left. vm_compute. reflexivity.
Defined.

Lemma operations_return_witness :
  (exists r, AddUser db_new alice = Return r) /\
  (exists r, GetUsers db_new [1; 2] = Return r) /\
  (exists r, GetChecks db_new pr1 = Return r) /\
  (exists r, AddCheck db_new pr1 "item" alice = Return r) /\
  (exists r, RemoveCheck db_new pr1 "item" alice = Return r).
Proof.
  apply (operations_return db_new [1; 2] pr1 "item" alice alice).
  split; exists ∅; vm_compute; reflexivity.
Defined.

Lemma RemoveCheck_settles_witness :
  (exists checks,
     GetChecks db_unchecked pr1 = Return (checks, None) /\
     ID alice ∉ checked_by checks "item") /\
  RemoveCheck db_unchecked pr1 "item" alice = Return (db_unchecked, None).
Proof.
  apply (RemoveCheck_settles db_checked pr1 "item" alice db_unchecked).
  vm_compute. reflexivity.
Defined.

Lemma write_changes_one_membership_witness :
  exists m m',
    stored_checks db_checked pr1 = Some m /\
    stored_checks db_unchecked pr1 = Some m' /\
    forall K' (V : Z), K' <> "item" \/ V <> ID alice ->
      V ∈ default ∅ (m' !! K') <-> V ∈ default ∅ (m !! K').
Proof.
  apply (write_changes_one_membership db_checked pr1 "item" alice db_unchecked).
  right. vm_compute. reflexivity.
Defined.
